(** * Pest detector: catalog selection, response parsing and summary text

    A shallow embedding of the pure logic of [app.py]:
    the curated catalog and the keyword set derived from it,
    [extract_actives], [detect_category], [curated_products], the
    brace-span extraction of [analyze_plant], the text built by
    [synthesize_summary], the fallback of [to_jpeg_bytes], the badges,
    the probability bar, the extension links and the loop that gathers
    the recommended products across findings.

    A Python [str] is embedded as the [string] of its UTF-8 bytes.  All
    keywords, actives and separators of the program are ASCII, so
    searching them in the bytes is searching them in the text.
    [PyStr.lower] and [PyText.strip] are [str.lower] and [str.strip] on
    ASCII text; where a statement is to cover every text, the two
    methods are parameters ([detect_category_with], [osu_query_with]).
    The collaborators that live outside the repository (the JSON
    decoder, the image codec, the [repr] of lists and dicts) are
    parameters of the functions that call them, and so is the order in
    which the running process iterates the keyword set. *)

From Stdlib Require Import ZArith Ascii DecimalString Lia.
From stdpp Require Import base list gmap strings.

Local Open Scope Z_scope.

(** ** Python string primitives *)

Module PyStr.

(** [c.lower()] for an ASCII character; the bytes of other code points
    are left as they are. *)
Definition lower_ascii (c : ascii) : ascii :=
  let n := nat_of_ascii c in
  if ((65 <=? n)%nat && (n <=? 90)%nat)%bool then ascii_of_nat (n + 32) else c.

(** [s.lower()] for an ASCII text [s]. *)
Fixpoint lower (s : string) : string :=
  match s with
  | EmptyString => EmptyString
  | String c s' => String (lower_ascii c) (lower s')
  end.

(** [s or ""] on a [str]: the empty string is the only falsy one. *)
Definition or_empty (s : string) : string :=
  match s with
  | EmptyString => ""
  | String _ _ => s
  end.

(** [w in s] *)
Fixpoint contains (w s : string) : bool :=
  String.prefix w s ||
  match s with
  | EmptyString => false
  | String _ s' => contains w s'
  end.

(** [any(w in s for w in ws)] *)
Definition any_in (ws : list string) (s : string) : bool :=
  existsb (fun w => contains w s) ws.

(** [s.find(c)] for a one-character needle: the lowest index, or -1. *)
Fixpoint find (c : ascii) (s : string) : Z :=
  match s with
  | EmptyString => -1
  | String d s' =>
      if Ascii.eqb d c then 0
      else let r := find c s' in if r <? 0 then -1 else r + 1
  end.

(** [s.rfind(c)] for a one-character needle: the highest index, or -1. *)
Fixpoint rfind (c : ascii) (s : string) : Z :=
  match s with
  | EmptyString => -1
  | String d s' =>
      let r := rfind c s' in
      if 0 <=? r then r + 1
      else if Ascii.eqb d c then 0 else -1
  end.

(** [s[i:j]] for [0 <= i] and [0 <= j]. *)
Definition slice (i j : Z) (s : string) : string :=
  String.substring (Z.to_nat i) (Z.to_nat (j - i)) s.

(** [sep.join(parts)] *)
Fixpoint join (sep : string) (parts : list string) : string :=
  match parts with
  | [] => ""
  | [p] => p
  | p :: rest => p +:+ sep +:+ join sep rest
  end.

(** The declarative reading of [w in s]. *)
Definition occurs (w s : string) : Prop :=
  exists pre post, s = pre +:+ w +:+ post.

(** No blank in [w]. *)
Fixpoint no_space (w : string) : bool :=
  match w with
  | EmptyString => true
  | String c w' => negb (Ascii.eqb c " ") && no_space w'
  end.

End PyStr.

(** ** Category classifier *)

Inductive Category : Type := Bacterial | Fungal | Insect.

#[global] Instance Category_eq_dec : EqDecision Category.
Proof. solve_decision. Defined.

(** The dictionary key [detect_category] returns for each category. *)
Definition category_key (c : Category) : string :=
  match c with
  | Bacterial => "bacterial"
  | Fungal => "fungal"
  | Insect => "insect"
  end.

Definition bacterial_words : list string :=
  ["bacteria"; "bacterial"; "canker"; "ooze"].
Definition fungal_words : list string :=
  ["rust"; "blight"; "mildew"; "anthracnose"; "rot"; "fung"].
Definition insect_words : list string :=
  ["aphid"; "whitefly"; "thrip"; "mite"; "borer"; "worm"; "caterpillar";
   "beetle"; "leafminer"; "insect"].

(** The text [dl] the classifier scans. *)
Definition scanned_text (disease_text treatment_text : string) : string :=
  PyStr.lower (PyStr.or_empty disease_text) +:+ " " +:+
  PyStr.lower (PyStr.or_empty treatment_text).

Definition detect_category (disease_text treatment_text : string) : Category :=
  let dl := scanned_text disease_text treatment_text in
  if PyStr.any_in bacterial_words dl then Bacterial
  else if PyStr.any_in fungal_words dl then Fungal
  else if PyStr.any_in insect_words dl then Insect
  else Insect.

(** The classifier as the specification words it: keyword sets tried in
    priority order, the first set with a keyword in the text wins, and
    [Insect] is the default. *)
Definition priority_table : list (Category * list string) :=
  [(Bacterial, bacterial_words); (Fungal, fungal_words); (Insect, insect_words)].

Fixpoint first_match (table : list (Category * list string)) (text : string)
  : option Category :=
  match table with
  | [] => None
  | (c, ws) :: rest =>
      if PyStr.any_in ws text then Some c else first_match rest text
  end.

Definition classify_spec (text : string) : Category :=
  default Insect (first_match priority_table text).

(** The classifier on every text: [str_lower] is [str.lower], which
    acts on all code points. *)
Definition scanned_text_with (str_lower : string -> string)
    (disease_text treatment_text : string) : string :=
  str_lower (PyStr.or_empty disease_text) +:+ " " +:+
  str_lower (PyStr.or_empty treatment_text).

Definition detect_category_with (str_lower : string -> string)
    (disease_text treatment_text : string) : Category :=
  let dl := scanned_text_with str_lower disease_text treatment_text in
  if PyStr.any_in bacterial_words dl then Bacterial
  else if PyStr.any_in fungal_words dl then Fungal
  else if PyStr.any_in insect_words dl then Insect
  else Insect.

(** ** Catalog store *)

Record CatalogEntry : Type := mkEntry {
  active : string;
  title : string;
  link : string;
  snippet : string
}.

#[global] Instance CatalogEntry_eq_dec : EqDecision CatalogEntry.
Proof. solve_decision. Defined.

(** A dictionary from category key to remedy list, in insertion order. *)
Definition Catalog : Type := list (string * list CatalogEntry).

Definition CATALOG : Catalog :=
  [ ("bacterial",
     [ mkEntry "copper" "Copper Fungicide (Bonide / Southern Ag) — search"
         "https://www.amazon.com/s?k=Copper+Fungicide+Bonide+Southern+Ag"
         "Copper (fixed copper, copper soap) for bacterial leaf spots and cankers." ]);
    ("fungal",
     [ mkEntry "chlorothalonil" "Daconil (chlorothalonil) — search"
         "https://www.amazon.com/s?k=Daconil+chlorothalonil+fungicide"
         "Broad-spectrum protectant for many leaf blights and fruit rots.";
       mkEntry "mancozeb" "Mancozeb (with zinc) — search"
         "https://www.amazon.com/s?k=mancozeb+fungicide+zinc"
         "Protectant fungicide—often rotated with other modes of action.";
       mkEntry "sulfur" "Sulfur (wettable / dust) — search"
         "https://www.amazon.com/s?k=sulfur+fungicide+garden"
         "(OMRI/Organic) Effective for powdery mildew; avoid near oils/heat per label.";
       mkEntry "potassium bicarbonate" "Potassium bicarbonate (e.g., GreenCure) — search"
         "https://www.amazon.com/s?k=potassium+bicarbonate+fungicide"
         "(OMRI/Organic) Contact fungicide for powdery mildew; rotate actives." ]);
    ("insect",
     [ mkEntry "spinosad" "Monterey Garden Insect Spray (Spinosad) — search"
         "https://www.amazon.com/s?k=Monterey+Garden+Insect+Spray+Spinosad"
         "(OMRI/Organic) Thrips, leafminers, caterpillars; avoid spraying during bloom.";
       mkEntry "bt" "Bt (Bacillus thuringiensis kurstaki) — search"
         "https://www.amazon.com/s?k=Bt+kurstaki+garden"
         "(OMRI/Organic) Caterpillar-specific bioinsecticide.";
       mkEntry "insecticidal soap" "Insecticidal soap (potassium salts) — search"
         "https://www.amazon.com/s?k=insecticidal+soap+Safer+Brand"
         "(OMRI/Organic) Soft-bodied pests like aphids/whiteflies; good coverage needed.";
       mkEntry "horticultural oil" "Horticultural oil (All Seasons) — search"
         "https://www.amazon.com/s?k=horticultural+oil+all+seasons+spray"
         "(OMRI/Organic) Smothers eggs/soft-bodied insects & some mites.";
       mkEntry "pyrethrin" "Pyrethrin concentrate — search"
         "https://www.amazon.com/s?k=pyrethrin+concentrate+garden"
         "Quick knockdown; rotate to reduce resistance.";
       mkEntry "azadirachtin" "Azadirachtin / Neem (cold-pressed) — search"
         "https://www.amazon.com/s?k=azadirachtin+neem+oil+concentrate"
         "(OMRI/Organic) Growth regulator/repellent; check PHI/REI." ]) ].

(** [C.get(key, [])] *)
Fixpoint catalog_get (C : Catalog) (key : string) : list CatalogEntry :=
  match C with
  | [] => []
  | (k, group) :: rest => if decide (k = key) then group else catalog_get rest key
  end.

(** The actives in the order the comprehension
    [c["active"] for group in C.values() for c in group] yields them. *)
Definition catalog_actives (C : Catalog) : list string :=
  flat_map (fun kv => map active kv.2) C.

(** The members of the set [ACTIVE_KEYWORDS]. *)
Definition keyword_set (C : Catalog) : gset string :=
  list_to_set (catalog_actives C).

Definition ACTIVE_KEYWORDS : gset string := keyword_set CATALOG.

(** A Python set is iterated in an order fixed by the hashes of its
    members, which for strings change from one process to the next.  An
    iteration order of a set is any enumeration of its members without
    repetition; the functions below take the order as an argument. *)
Definition iteration_order (order : list string) (s : gset string) : Prop :=
  NoDup order /\ forall a, a ∈ order <-> a ∈ s.

(** [l] without the repetitions of an element already met. *)
Fixpoint first_seen (seen : gset string) (l : list string) : list string :=
  match l with
  | [] => []
  | a :: l' =>
      if bool_decide (a ∈ seen) then first_seen seen l'
      else a :: first_seen ({[a]} ∪ seen) l'
  end.

(** Catalog order: the actives in the order the comprehension first
    yields them. *)
Definition catalog_order (C : Catalog) : list string :=
  first_seen ∅ (catalog_actives C).

(** ** Active-ingredient extractor *)

(** One round of the loop over the keyword set. *)
Definition extract_step (text_l : string) (st : list string * gset string)
    (a : string) : list string * gset string :=
  let '(found, seen) := st in
  if PyStr.contains a text_l && negb (bool_decide (a ∈ seen))
  then (found ++ [a], {[a]} ∪ seen)
  else (found, seen).

Definition extract_actives (order : list string) (text : string) : list string :=
  let text_l := PyStr.lower (PyStr.or_empty text) in
  (fold_left (extract_step text_l) order ([], ∅)).1.

(** The extractor as the specification words it: the catalog's actives
    that occur in the lower-cased text, in catalog order, each once. *)
Definition extract_actives_spec (C : Catalog) (text : string) : list string :=
  List.filter (fun a => PyStr.contains a (PyStr.lower text)) (catalog_order C).

(** The module state the extractor reads: the keyword set with the
    iteration order it has in the running process. *)
Record Globals : Type := mkGlobals { keyword_order : list string }.

(** [extract_actives] as a state transformer on the module state. *)
Definition extract_actives_run (g : Globals) (text : string)
  : list string * Globals :=
  (extract_actives (keyword_order g) text, g).

(** ** Recommendation selector *)

(** The nested loop collecting the entries whose active was named. *)
Definition collect_item (a : string) (chosen : list CatalogEntry)
    (item : CatalogEntry) : list CatalogEntry :=
  if decide (active item = a) then chosen ++ [item] else chosen.

Definition collect_active (catalog_list : list CatalogEntry)
    (chosen : list CatalogEntry) (a : string) : list CatalogEntry :=
  fold_left (collect_item a) catalog_list chosen.

Definition collect (catalog_list : list CatalogEntry) (actives : list string)
  : list CatalogEntry :=
  fold_left (collect_active catalog_list) actives [].

(** The backfill loop, which stops as soon as two entries are chosen. *)
Fixpoint backfill (items chosen : list CatalogEntry) : list CatalogEntry :=
  match items with
  | [] => chosen
  | item :: rest =>
      if bool_decide (item ∈ chosen) then backfill rest chosen
      else
        let chosen' := chosen ++ [item] in
        if (2 <=? length chosen')%nat then chosen' else backfill rest chosen'
  end.

Definition curated_products (C : Catalog) (order : list string)
    (recommendation disease_name : string) : list CatalogEntry :=
  let category := detect_category disease_name recommendation in
  let actives := extract_actives order recommendation in
  let catalog_list := catalog_get C (category_key category) in
  match catalog_list with
  | [] => []
  | _ :: _ =>
      match actives with
      | _ :: _ =>
          let chosen := collect catalog_list actives in
          let chosen :=
            if (length chosen <? 2)%nat then backfill catalog_list chosen
            else chosen in
          take 4 chosen
      | [] => take 2 catalog_list
      end
  end.

(** A second iteration order of [ACTIVE_KEYWORDS]: catalog order reversed. *)
Definition reversed_order : list string := reverse (catalog_order CATALOG).

(** ** Decoded JSON values and exceptions *)

(** What [json.loads] builds: [None], [bool], [int], [str], [list] and
    [dict] (fields in insertion order, keys distinct).  JSON numbers with
    a fraction or an exponent are left out of the model. *)
#[warnings="-register-all"]
Inductive json : Type :=
  | JNull
  | JBool (b : bool)
  | JInt (n : Z)
  | JStr (s : string)
  | JArr (items : list json)
  | JObj (fields : list (string * json)).

(** A call either returns or raises an [Exception] with the given text. *)
Inductive outcome (A : Type) : Type :=
  | Returns (a : A)
  | Raises (exc : string).
Arguments Returns {A} a.
Arguments Raises {A} exc.

#[global] Instance outcome_ret : MRet outcome := fun A a => Returns a.

#[global] Instance outcome_bind : MBind outcome := fun A B k m =>
  match m with
  | Returns a => k a
  | Raises exc => Raises exc
  end.

(** The body of a [for] loop run on each element, stopping at the first
    exception. *)
Fixpoint for_each {A B : Type} (body : A -> outcome B) (l : list A)
  : outcome (list B) :=
  match l with
  | [] => Returns []
  | x :: rest =>
      y ← body x;
      ys ← for_each body rest;
      Returns (y :: ys)
  end.

(** [try: ... except Exception: handler] *)
Definition try_except {A : Type} (m : outcome A) (handler : string -> A) : A :=
  match m with
  | Returns a => a
  | Raises exc => handler exc
  end.

(** [d.get(k)]; [None] when the key is absent. *)
Fixpoint dict_get (d : list (string * json)) (k : string) : option json :=
  match d with
  | [] => None
  | (k', v) :: rest => if decide (k' = k) then Some v else dict_get rest k
  end.

(** Truth value of a decoded value. *)
Definition truthy (v : json) : bool :=
  match v with
  | JNull => false
  | JBool b => b
  | JInt n => negb (n =? 0)
  | JStr s => negb (bool_decide (s = ""))
  | JArr items => match items with [] => false | _ :: _ => true end
  | JObj fields => match fields with [] => false | _ :: _ => true end
  end.

(** Truth value of [d.get(k)]. *)
Definition truthy_get (d : list (string * json)) (k : string) : bool :=
  match dict_get d k with
  | Some v => truthy v
  | None => false
  end.

(** [str(n)] for an [int]. *)
Definition str_of_int (n : Z) : string :=
  DecimalString.NilEmpty.string_of_int (Z.to_int n).

(** [str(v)], which is what an f-string field renders.  Lists and dicts
    print as their [repr], supplied by [container_repr]. *)
Definition py_str (container_repr : json -> string) (v : json) : string :=
  match v with
  | JNull => "None"
  | JBool true => "True"
  | JBool false => "False"
  | JInt n => str_of_int n
  | JStr s => s
  | JArr _ | JObj _ => container_repr v
  end.

(** ** Analysis client: extraction of the JSON object *)

(** The dictionary [analyze_plant] returns: the decoded response, or the
    error dictionary with its [error] and [raw] fields. *)
Inductive Response : Type :=
  | Decoded (v : json)
  | ErrorDict (error raw : string).

(** The outermost brace span [text[s:e]]. *)
Definition brace_span (text : string) : string :=
  PyStr.slice (PyStr.find "{" text) (PyStr.rfind "}" text + 1) text.

(** The steps of [analyze_plant] after the backend has answered with
    [resp_text]; [json_loads] is the decoder, [inr ex] standing for the
    exception it raises and its message. *)
Definition parse_response (json_loads : string -> json + string)
    (resp_text : string) : Response :=
  let text := PyStr.or_empty resp_text in
  let s := PyStr.find "{" text in
  let e := PyStr.rfind "}" text + 1 in
  if (s <? 0) || (e <=? 0)
  then ErrorDict "Failed to parse the model response" text
  else
    match json_loads (PyStr.slice s e text) with
    | inl v => Decoded v
    | inr ex => ErrorDict ("Invalid JSON: " +:+ ex) (PyStr.slice s e text)
    end.

(** [c not in s] for a character. *)
Fixpoint absent (c : ascii) (s : string) : Prop :=
  match s with
  | EmptyString => True
  | String d s' => d <> c /\ absent c s'
  end.

(** ** Summary synthesizer *)

(** [f"{r.get(k, dflt)}"] *)
Definition field (container_repr : json -> string)
    (r : list (string * json)) (k dflt : string) : string :=
  py_str container_repr (default (JStr dflt) (dict_get r k)).

(** The sentence appended for one finding; [r.get] exists on dicts only. *)
Definition finding_sentence (container_repr : json -> string) (r : json)
  : outcome string :=
  match r with
  | JObj d =>
      Returns (field container_repr d "name" "Unknown" +:+ ". Symptoms: " +:+
               field container_repr d "symptoms" "" +:+ ". " +:+
               "Treatment: " +:+ field container_repr d "treatment" "" +:+
               ". Prevention: " +:+ field container_repr d "prevention" "" +:+ ".")
  | _ => Raises "AttributeError"
  end.

(** The [summary] string of [synthesize_summary], before it is handed to
    the speech engine. *)
Definition summary_text (container_repr : json -> string)
    (analysis : list (string * json)) (plant_name : string) : outcome string :=
  if truthy_get analysis "is_healthy" then
    Returns ("Your " +:+ plant_name +:+
             " plant appears healthy. Keep doing what you are doing.")
  else if truthy_get analysis "results" then
    match dict_get analysis "results" with
    | Some (JArr items) =>
        parts ← for_each (finding_sentence container_repr) items;
        Returns ("Detected issues: " +:+ PyStr.join " " parts)
    | Some (JStr _) | Some (JObj _) => Raises "AttributeError"
    | _ => Raises "TypeError"
    end
  else Returns "Analysis inconclusive.".

(** The sentence for one finding as the specification words it: every
    missing field is the empty string. *)
Definition finding_sentence_spec (container_repr : json -> string)
    (d : list (string * json)) : string :=
  field container_repr d "name" "" +:+ ". Symptoms: " +:+
  field container_repr d "symptoms" "" +:+ ". " +:+
  "Treatment: " +:+ field container_repr d "treatment" "" +:+
  ". Prevention: " +:+ field container_repr d "prevention" "" +:+ ".".

(** ** Image normalization *)

(** The imaging library as [to_jpeg_bytes] uses it. *)
Record ImageCodec : Type := mkCodec {
  image : Type;
  image_open : list Byte.byte -> outcome image;
  image_convert : image -> string -> outcome image;
  image_save : image -> string -> Z -> outcome (list Byte.byte)
}.

(** The [try] block of [to_jpeg_bytes]. *)
Definition reencode (codec : ImageCodec) (raw_bytes : list Byte.byte)
  : outcome (list Byte.byte) :=
  im ← image_open codec raw_bytes;
  rgb ← image_convert codec im "RGB";
  image_save codec rgb "JPEG" 92.

Definition to_jpeg_bytes (codec : ImageCodec) (raw_bytes : list Byte.byte)
  : list Byte.byte :=
  try_except (reencode codec raw_bytes) (fun _ => raw_bytes).

(** ** A reference decoder, to run the client on sample responses

    [json.loads] is a parameter of [parse_response].  The decoder below
    covers the JSON fragment without escapes inside strings and without
    fractions or exponents in numbers, and serves as a concrete instance
    of that parameter. *)

Module SampleDecoder.

Definition quote : ascii := "034"%char.
Definition backslash : ascii := "092"%char.

(** [s] between double quotes. *)
Definition quoted (s : string) : string :=
  String quote s +:+ String quote "".

Definition is_ws (c : ascii) : bool :=
  Ascii.eqb c " " || Ascii.eqb c "009" || Ascii.eqb c "010" || Ascii.eqb c "013".

Fixpoint skip_ws (s : string) : string :=
  match s with
  | EmptyString => ""
  | String c s' => if is_ws c then skip_ws s' else s
  end.

Fixpoint strip_prefix (p s : string) : option string :=
  match p, s with
  | EmptyString, _ => Some s
  | String c p', String d s' => if Ascii.eqb c d then strip_prefix p' s' else None
  | String _ _, EmptyString => None
  end.

(** The characters up to the closing quote, and what follows it. *)
Fixpoint read_string (s : string) : option (string * string) :=
  match s with
  | EmptyString => None
  | String c s' =>
      if Ascii.eqb c quote then Some ("", s')
      else if Ascii.eqb c backslash || (nat_of_ascii c <? 32)%nat then None
      else '(str, rest) ← read_string s'; Some (String c str, rest)
  end.

Definition digit (c : ascii) : option Z :=
  let n := nat_of_ascii c in
  if ((48 <=? n)%nat && (n <=? 57)%nat)%bool then Some (Z.of_nat n - 48) else None.

Fixpoint read_digits (s : string) (acc : Z) : Z * string :=
  match s with
  | EmptyString => (acc, "")
  | String c s' =>
      match digit c with
      | Some d => read_digits s' (10 * acc + d)
      | None => (acc, s)
      end
  end.

(** A number with neither fraction nor exponent, without leading zero. *)
Definition read_nat (s : string) : option (Z * string) :=
  match s with
  | EmptyString => None
  | String c s' =>
      d ← digit c;
      let '(n, rest) := if d =? 0 then (0, s') else read_digits s' d in
      match rest with
      | EmptyString => Some (n, rest)
      | String c' _ =>
          if Ascii.eqb c' "." || Ascii.eqb c' "e" || Ascii.eqb c' "E"
             || bool_decide (is_Some (digit c'))
          then None else Some (n, rest)
      end
  end.

Definition read_int (s : string) : option (Z * string) :=
  match s with
  | String "-" s' => '(n, rest) ← read_nat s'; Some (- n, rest)
  | _ => read_nat s
  end.

(** [d[k] = v] *)
Fixpoint dict_set (k : string) (v : json) (d : list (string * json))
  : list (string * json) :=
  match d with
  | [] => [(k, v)]
  | (k', v') :: rest =>
      if decide (k' = k) then (k, v) :: rest else (k', v') :: dict_set k v rest
  end.

Fixpoint decode_value (fuel : nat) (s : string) {struct fuel}
  : option (json * string) :=
  match fuel with
  | O => None
  | S fuel' =>
      match skip_ws s with
      | EmptyString => None
      | String c rest =>
          if Ascii.eqb c "{" then
            match skip_ws rest with
            | String "}" rest' => Some (JObj [], rest')
            | _ => decode_members fuel' rest []
            end
          else if Ascii.eqb c "[" then
            match skip_ws rest with
            | String "]" rest' => Some (JArr [], rest')
            | _ => decode_items fuel' rest []
            end
          else if Ascii.eqb c quote then
            '(str, rest') ← read_string rest; Some (JStr str, rest')
          else if Ascii.eqb c "t" then
            rest' ← strip_prefix "rue" rest; Some (JBool true, rest')
          else if Ascii.eqb c "f" then
            rest' ← strip_prefix "alse" rest; Some (JBool false, rest')
          else if Ascii.eqb c "n" then
            rest' ← strip_prefix "ull" rest; Some (JNull, rest')
          else
            '(n, rest') ← read_int (String c rest); Some (JInt n, rest')
      end
  end
with decode_items (fuel : nat) (s : string) (acc : list json) {struct fuel}
  : option (json * string) :=
  match fuel with
  | O => None
  | S fuel' =>
      '(v, rest) ← decode_value fuel' s;
      match skip_ws rest with
      | String "," rest' => decode_items fuel' rest' (acc ++ [v])
      | String "]" rest' => Some (JArr (acc ++ [v]), rest')
      | _ => None
      end
  end
with decode_members (fuel : nat) (s : string) (acc : list (string * json))
  {struct fuel} : option (json * string) :=
  match fuel with
  | O => None
  | S fuel' =>
      match skip_ws s with
      | String c rest =>
          if Ascii.eqb c quote then
            '(k, rest) ← read_string rest;
            match skip_ws rest with
            | String ":" rest =>
                '(v, rest) ← decode_value fuel' rest;
                match skip_ws rest with
                | String "," rest' => decode_members fuel' rest' (dict_set k v acc)
                | String "}" rest' => Some (JObj (dict_set k v acc), rest')
                | _ => None
                end
            | _ => None
            end
          else None
      | EmptyString => None
      end
  end.

(** One value, then nothing but blanks. *)
Definition json_decode (s : string) : option json :=
  '(v, rest) ← decode_value (2 * String.length s + 2) s;
  match skip_ws rest with
  | EmptyString => Some v
  | String _ _ => None
  end.

Definition loads (s : string) : json + string :=
  match json_decode s with
  | Some v => inl v
  | None => inr "Expecting value"
  end.

(** A stand-in for the [repr] of lists and dicts. *)
Definition container_repr (v : json) : string := "[...]".

End SampleDecoder.

(** ** Sample data *)

(** The sample response of the specification. *)
Definition sample_object : string :=
  "{" +:+ SampleDecoder.quoted "is_healthy" +:+ ": true, " +:+
  SampleDecoder.quoted "results" +:+ ": [], " +:+
  SampleDecoder.quoted "confidence" +:+ ": " +:+
  SampleDecoder.quoted "95%" +:+ "}".

Definition sample_response : string :=
  "Here is the result: " +:+ sample_object +:+ " Thanks!".

Definition sample_analysis : json :=
  JObj [("is_healthy", JBool true); ("results", JArr []); ("confidence", JStr "95%")].

(** The sulfur remedy of the fungal list. *)
Definition sulfur_entry : CatalogEntry :=
  mkEntry "sulfur" "Sulfur (wettable / dust) — search"
    "https://www.amazon.com/s?k=sulfur+fungicide+garden"
    "(OMRI/Organic) Effective for powdery mildew; avoid near oils/heat per label.".

(** A finding without a name. *)
Definition nameless_finding : list (string * json) :=
  [("symptoms", JStr "yellow spots"); ("treatment", JStr "apply copper")].

Definition nameless_analysis : list (string * json) :=
  [("is_healthy", JBool false); ("results", JArr [JObj nameless_finding])].

(** A codec that accepts exactly the inputs starting with the byte
    [0xff], takes what follows as the pixels, and saves pixels behind a
    two-byte header. *)
Definition toy_codec : ImageCodec :=
  mkCodec (list Byte.byte)
    (fun raw => match raw with
                | Byte.xff :: pixels => Returns pixels
                | _ => Raises "UnidentifiedImageError"
                end)
    (fun im _ => Returns im)
    (fun im _ _ => Returns (Byte.xff :: Byte.xd8 :: im)).

(** ** Further string primitives *)

Module PyText.

(** [c.isspace()] for an ASCII character: tab to carriage return, the
    four separator controls and the blank.  The blanks beyond ASCII that
    [str.strip] also removes are not in it. *)
Definition is_space (c : ascii) : bool :=
  let n := nat_of_ascii c in
  ((9 <=? n)%nat && (n <=? 13)%nat) || ((28 <=? n)%nat && (n <=? 32)%nat).

(** [s.lstrip()] *)
Fixpoint lstrip (s : string) : string :=
  match s with
  | EmptyString => ""
  | String c s' => if is_space c then lstrip s' else s
  end.

(** [s.rstrip()] *)
Fixpoint rstrip (s : string) : string :=
  match s with
  | EmptyString => ""
  | String c s' =>
      match rstrip s' with
      | EmptyString => if is_space c then "" else String c ""
      | String d r => String c (String d r)
      end
  end.

(** [s.strip()] *)
Definition strip (s : string) : string := rstrip (lstrip s).

(** [s.replace(c, "")] for a one-character [c]. *)
Fixpoint remove_char (c : ascii) (s : string) : string :=
  match s with
  | EmptyString => ""
  | String d s' =>
      if Ascii.eqb d c then remove_char c s' else String d (remove_char c s')
  end.

(** [a or b] on two [str]. *)
Definition or_else (a b : string) : string :=
  match a with
  | EmptyString => b
  | String _ _ => a
  end.

(** Truth value of a [str]. *)
Definition nonempty (s : string) : bool :=
  match s with
  | EmptyString => false
  | String _ _ => true
  end.

(** The characters of a text. *)
Fixpoint chars (s : string) : list ascii :=
  match s with
  | EmptyString => []
  | String c s' => c :: chars s'
  end.

Definition dquote : string := String "034"%char "".
Definition newline : string := String "010"%char "".

(** A reading of [int(s)] in base ten on ASCII text: blanks around, an
    optional sign, digits with single underscores between them. *)
Fixpoint digits_value (s : string) (acc : Z) (after_digit : bool) : option Z :=
  match s with
  | EmptyString => if after_digit then Some acc else None
  | String c s' =>
      match SampleDecoder.digit c with
      | Some d => digits_value s' (10 * acc + d) true
      | None =>
          if Ascii.eqb c "_" && after_digit then digits_value s' acc false
          else None
      end
  end.

Definition int_of_text (s : string) : outcome Z :=
  let t := strip s in
  let r :=
    match t with
    | String "-" t' => Z.opp <$> digits_value t' 0 false
    | String "+" t' => digits_value t' 0 false
    | _ => digits_value t 0 false
    end in
  match r with
  | Some n => Returns n
  | None => Raises "ValueError"
  end.

End PyText.

(** ** Badges and the probability bar *)

(** The style class [severity_badge] picks. *)
Definition severity_class (sev : string) : string :=
  let s := PyStr.lower (PyStr.or_empty sev) in
  if String.prefix "high" s then "badge-high"
  else if String.prefix "low" s then "badge-low"
  else "badge-med".

Definition severity_badge (sev : string) : string :=
  "<span class=" +:+ PyText.dquote +:+ "badge " +:+ severity_class sev +:+
  PyText.dquote +:+ ">" +:+ PyText.or_else sev "—" +:+ " Severity</span>".

Definition type_badge (tp : string) : string :=
  "<span class=" +:+ PyText.dquote +:+ "badge badge-type" +:+ PyText.dquote +:+
  ">" +:+ PyText.or_else tp "—" +:+ "</span>".

(** The text handed to [int] by [progress_bar]. *)
Definition percent_text (container_repr : json -> string) (pct : json) : string :=
  PyText.strip (PyText.remove_char "%" (py_str container_repr pct)).

(** The width [v] that [progress_bar] shows; [py_int] is the built-in
    [int], which returns or raises. *)
Definition progress_value (py_int : string -> outcome Z)
    (container_repr : json -> string) (pct : json) : Z :=
  let v := try_except (py_int (percent_text container_repr pct)) (fun _ => 0) in
  Z.max 0 (Z.min 100 v).

Definition progress_bar (py_int : string -> outcome Z)
    (container_repr : json -> string) (pct : json) : string :=
  let v := str_of_int (progress_value py_int container_repr pct) in
  PyText.newline +:+
  "      <div class=" +:+ PyText.dquote +:+ "progress-wrap" +:+ PyText.dquote +:+
  "><div class=" +:+ PyText.dquote +:+ "progress-bar" +:+ PyText.dquote +:+
  " style=" +:+ PyText.dquote +:+ "width:" +:+ v +:+ "%" +:+ PyText.dquote +:+
  "></div></div>" +:+ PyText.newline +:+
  "      <div class=" +:+ PyText.dquote +:+ "small" +:+ PyText.dquote +:+
  " style=" +:+ PyText.dquote +:+ "margin-top:4px;" +:+ PyText.dquote +:+
  "><strong>" +:+ v +:+ "%</strong></div>" +:+ PyText.newline +:+ "    ".

(** ** Extension links *)

(** One link dictionary: its [title], [link] and [snippet]. *)
Record Link : Type := mkLink {
  link_title : string;
  link_url : string;
  link_snippet : string
}.

(** The search terms [q]. *)
Definition osu_query (plant disease : string) : string :=
  if PyText.nonempty plant && PyText.nonempty disease
  then PyStr.join "+" [PyText.strip plant; PyText.strip disease]
  else PyText.or_else plant (PyText.or_else disease "plant disease").

Definition osu_extension_links (plant disease : string) : list Link :=
  let q := osu_query plant disease in
  [ mkLink "OSU Extension fact sheets (search)"
      ("https://www.google.com/search?q=site:ohioline.osu.edu+" +:+ q)
      "Ohio State University Extension fact sheets related to your query.";
    mkLink "OSU CFAES plant problem resources (search)"
      ("https://www.google.com/search?q=site:u.osu.edu+" +:+ q +:+ "+plant+problem")
      "Additional OSU resources and diagnostics." ].

(** The links for every pair of names: [str_strip] is [str.strip],
    which removes the blanks of all scripts. *)
Definition osu_query_with (str_strip : string -> string)
    (plant disease : string) : string :=
  if PyText.nonempty plant && PyText.nonempty disease
  then PyStr.join "+" [str_strip plant; str_strip disease]
  else PyText.or_else plant (PyText.or_else disease "plant disease").

Definition osu_extension_links_with (str_strip : string -> string)
    (plant disease : string) : list Link :=
  let q := osu_query_with str_strip plant disease in
  [ mkLink "OSU Extension fact sheets (search)"
      ("https://www.google.com/search?q=site:ohioline.osu.edu+" +:+ q)
      "Ohio State University Extension fact sheets related to your query.";
    mkLink "OSU CFAES plant problem resources (search)"
      ("https://www.google.com/search?q=site:u.osu.edu+" +:+ q +:+ "+plant+problem")
      "Additional OSU resources and diagnostics." ].

(** The chlorothalonil remedy, first of the fungal list. *)
Definition chlorothalonil_entry : CatalogEntry :=
  mkEntry "chlorothalonil" "Daconil (chlorothalonil) — search"
    "https://www.amazon.com/s?k=Daconil+chlorothalonil+fungicide"
    "Broad-spectrum protectant for many leaf blights and fruit rots.".

(** ** Audio summary *)

(** [synthesize_summary]: the summary is built first, then spoken inside
    the [try]; [speak] is the speech engine called with the text, the
    language and the [slow] flag. *)
Definition synthesize_summary
    (speak : string -> string -> bool -> outcome (list Byte.byte))
    (container_repr : json -> string)
    (analysis : list (string * json)) (plant_name : string)
  : outcome (list Byte.byte) :=
  summary ← summary_text container_repr analysis plant_name;
  Returns (try_except (speak summary "en" false) (fun _ => [])).

(** ** Recommended products across findings *)

(** [(v or "")] where a [str] is needed next: a falsy value gives the
    empty text, a true value that is no [str] has no [lower]. *)
Definition text_arg (v : json) : outcome string :=
  match v with
  | JStr s => Returns s
  | _ => if truthy v then Raises "AttributeError" else Returns ""
  end.

(** [curated_products(r.get("treatment",""), r.get("name",""))] *)
Definition curated_products_of (C : Catalog) (order : list string) (r : json)
  : outcome (list CatalogEntry) :=
  match r with
  | JObj d =>
      let treatment := default (JStr "") (dict_get d "treatment") in
      let name := default (JStr "") (dict_get d "name") in
      disease_name ← text_arg name;
      recommendation ← text_arg treatment;
      Returns (curated_products C order recommendation disease_name)
  | _ => Raises "AttributeError"
  end.

(** The body of the inner loop: keep a product whose title is new. *)
Definition add_product (st : gset string * list CatalogEntry)
    (p : CatalogEntry) : gset string * list CatalogEntry :=
  let '(seen, items) := st in
  if bool_decide (title p ∈ seen) then (seen, items)
  else ({[title p]} ∪ seen, items ++ [p]).

(** The loop over the findings that gathers the products to show. *)
Fixpoint recommended_loop (C : Catalog) (order : list string)
    (results : list json) (st : gset string * list CatalogEntry)
  : outcome (gset string * list CatalogEntry) :=
  match results with
  | [] => Returns st
  | r :: rest =>
      ps ← curated_products_of C order r;
      recommended_loop C order rest (fold_left add_product ps st)
  end.

Definition recommended_items (C : Catalog) (order : list string)
    (results : list json) : outcome (list CatalogEntry) :=
  st ← recommended_loop C order results (∅, []);
  Returns st.2.

(** The invariant of the two loops: [seen] holds the titles of the items
    kept so far, and these titles differ from one another. *)
Definition titles_tracked (st : gset string * list CatalogEntry) : Prop :=
  NoDup (map title st.2) /\ forall t, t ∈ st.1 <-> t ∈ map title st.2.

(** All the entries of a catalog. *)
Definition catalog_entries (C : Catalog) : list CatalogEntry :=
  flat_map snd C.

(** The mancozeb remedy of the fungal list. *)
Definition mancozeb_entry : CatalogEntry :=
  mkEntry "mancozeb" "Mancozeb (with zinc) — search"
    "https://www.amazon.com/s?k=mancozeb+fungicide+zinc"
    "Protectant fungicide—often rotated with other modes of action.".

(** A speech engine that fails on every text, and one that returns one
    byte per character. *)
Definition mute_engine (text lang : string) (slow : bool)
  : outcome (list Byte.byte) := Raises "gTTSError".

Definition toy_engine (text lang : string) (slow : bool)
  : outcome (list Byte.byte) :=
  Returns (map (fun _ => Byte.x2e) (PyText.chars text)).

(** Two findings of one category and one of another. *)
Definition sample_findings : list json :=
  [ JObj [("name", JStr "Early blight"); ("treatment", JStr "Apply chlorothalonil or mancozeb")];
    JObj [("name", JStr "Powdery mildew"); ("treatment", JStr "Sulfur or mancozeb sprays")];
    JObj [("name", JStr "Aphids"); ("treatment", JNull)] ].

(** * Properties *)

(** ** Strings *)

#[local] Arguments String.append !_ _ / : simpl nomatch.
#[local] Set Warnings "-clear-no-such-hyp".

Module PyStrFacts.
Import PyStr.

Lemma str_app_nil_r (s : string) : s +:+ "" = s.
Proof. induction s as [|c s IH]; simpl; [reflexivity | now rewrite IH]. Qed.

Lemma str_app_assoc (a b c : string) : (a +:+ b) +:+ c = a +:+ b +:+ c.
Proof. induction a as [|x a IH]; simpl; [reflexivity | now rewrite IH]. Qed.

Lemma str_length_app (a b : string) :
  String.length (a +:+ b) = (String.length a + String.length b)%nat.
Proof. induction a as [|x a IH]; simpl; [reflexivity | now rewrite IH]. Qed.

Lemma or_empty_id (s : string) : or_empty s = s.
Proof. now destruct s. Qed.

Lemma lower_app (a b : string) : lower (a +:+ b) = lower a +:+ lower b.
Proof. induction a as [|x a IH]; simpl; [reflexivity | now rewrite IH]. Qed.

(** [startswith] *)
Lemma prefix_true (w s : string) :
  String.prefix w s = true <-> exists post, s = w +:+ post.
Proof.
  revert s; induction w as [|c w IH]; intros s.
  - destruct s; simpl; split; eauto.
  - destruct s as [|d s]; simpl.
    + split; [discriminate | intros [post H]; discriminate].
    + destruct (ascii_dec c d) as [->|Hne].
      * rewrite IH. split; intros [post H]; exists post; congruence.
      * split; [discriminate | intros [post H]; congruence].
Qed.

Lemma contains_prefix (w s : string) :
  String.prefix w s = true -> contains w s = true.
Proof. intros H. destruct s; simpl in *; rewrite H; reflexivity. Qed.

Lemma contains_cons (w : string) (c : ascii) (s : string) :
  contains w (String c s) = String.prefix w (String c s) || contains w s.
Proof. reflexivity. Qed.

(** The membership test decides the declarative reading. *)
Lemma contains_occurs (w s : string) : contains w s = true <-> occurs w s.
Proof.
  split.
  - induction s as [|c s IH]; intros H.
    + change (contains w "") with (String.prefix w "" || false) in H.
      rewrite orb_false_r in H.
      apply prefix_true in H as [post H]. exists "", post. exact H.
    + rewrite contains_cons in H. apply orb_true_iff in H as [H|H].
      * apply prefix_true in H as [post H]. exists "", post. exact H.
      * destruct (IH H) as (pre & post & ->). exists (String c pre), post.
        reflexivity.
  - intros (pre & post & ->). induction pre as [|c pre IH].
    + apply contains_prefix, prefix_true. eauto.
    + simpl String.append. rewrite contains_cons, IH. apply orb_true_r.
Qed.

Lemma occurs_app_l (w s t : string) : occurs w s -> occurs w (s +:+ t).
Proof.
  intros (pre & post & ->). exists pre, (post +:+ t).
  now rewrite !str_app_assoc.
Qed.

Lemma occurs_app_r (w s t : string) : occurs w t -> occurs w (s +:+ t).
Proof.
  intros (pre & post & ->). exists (s +:+ pre), post.
  now rewrite !str_app_assoc.
Qed.

Lemma occurs_trans (u w s : string) : occurs u w -> occurs w s -> occurs u s.
Proof.
  intros (p1 & q1 & ->) (p2 & q2 & ->).
  exists (p2 +:+ p1), (q1 +:+ q2). now rewrite !str_app_assoc.
Qed.

Lemma occurs_lower (w s : string) : occurs w s -> occurs (lower w) (lower s).
Proof.
  intros (pre & post & ->). exists (lower pre), (lower post).
  now rewrite !lower_app.
Qed.

(** A word without blank that starts a text with a blank in it starts
    the part before the blank. *)
Lemma prefix_app_space (w a b : string) :
  no_space w = true ->
  String.prefix w (a +:+ " " +:+ b) = String.prefix w a.
Proof.
  revert a; induction w as [|c w IH]; intros a Hw.
  - now destruct a.
  - simpl in Hw. apply andb_true_iff in Hw as [Hc Hw].
    destruct a as [|d a]; simpl.
    + destruct (ascii_dec c " ") as [->|Hne]; [discriminate | reflexivity].
    + destruct (ascii_dec c d); [now apply IH | reflexivity].
Qed.

(** A word without blank lies on one side of a blank. *)
Lemma contains_app_space (w a b : string) :
  no_space w = true ->
  contains w (a +:+ " " +:+ b) = contains w a || contains w b.
Proof.
  intros Hw. induction a as [|d a IH].
  - change ("" +:+ " " +:+ b) with (String " " b).
    rewrite contains_cons.
    change (String " " b) with ("" +:+ " " +:+ b) at 1.
    rewrite (prefix_app_space w "" b Hw). simpl. now rewrite orb_false_r.
  - change (String d a +:+ " " +:+ b) with (String d (a +:+ " " +:+ b)).
    rewrite !contains_cons, IH.
    change (String d (a +:+ " " +:+ b)) with (String d a +:+ " " +:+ b).
    rewrite (prefix_app_space w (String d a) b Hw).
    now rewrite orb_assoc.
Qed.

(** *** [find], [rfind] and slices *)

Lemma absent_dec (c : ascii) (s : string) : {absent c s} + {~ absent c s}.
Proof.
  induction s as [|d s IH]; simpl.
  - now left.
  - destruct (ascii_dec d c) as [->|Hne]; [right; tauto|].
    destruct IH; [left | right]; tauto.
Defined.

Lemma absent_app (c : ascii) (a b : string) :
  absent c (a +:+ b) <-> absent c a /\ absent c b.
Proof. induction a as [|d a IH]; simpl; tauto. Qed.

Lemma find_range (c : ascii) (s : string) : -1 <= find c s.
Proof.
  induction s as [|d s IH]; simpl; [lia|].
  destruct (Ascii.eqb d c); [lia|]. destruct (Z.ltb_spec (find c s) 0); lia.
Qed.

Lemma rfind_range (c : ascii) (s : string) : -1 <= rfind c s.
Proof.
  induction s as [|d s IH]; simpl; [lia|].
  destruct (Z.leb_spec 0 (rfind c s)); [lia|]. destruct (Ascii.eqb d c); lia.
Qed.

Lemma find_absent (c : ascii) (s : string) : find c s < 0 <-> absent c s.
Proof.
  induction s as [|d s IH]; simpl; [split; [trivial | lia]|].
  destruct (Ascii.eqb_spec d c) as [->|Hne].
  - split; [lia | tauto].
  - pose proof (find_range c s) as Hr.
    destruct (Z.ltb_spec (find c s) 0) as [Hlt|Hge]; split; try tauto; try lia.
    intros [_ Ha]. apply IH in Ha. lia.
Qed.

Lemma rfind_absent (c : ascii) (s : string) : rfind c s < 0 <-> absent c s.
Proof.
  induction s as [|d s IH]; simpl; [split; [trivial | lia]|].
  pose proof (rfind_range c s) as Hr.
  destruct (Z.leb_spec 0 (rfind c s)) as [Hge|Hlt].
  - split; [lia|]. intros [_ Ha]. apply IH in Ha. lia.
  - destruct (Ascii.eqb_spec d c) as [->|Hne].
    + split; [lia | tauto].
    + split; [|lia]. intros _. split; [exact Hne | apply IH; lia].
Qed.

(** [find] returns the position of the first occurrence. *)
Lemma find_first (c : ascii) (a r : string) :
  absent c a -> find c (a +:+ String c r) = Z.of_nat (String.length a).
Proof.
  induction a as [|d a IH]; simpl.
  - intros _. now rewrite Ascii.eqb_refl.
  - intros [Hne Ha]. destruct (Ascii.eqb_spec d c); [contradiction|].
    rewrite (IH Ha). destruct (Z.ltb_spec (Z.of_nat (String.length a)) 0); lia.
Qed.

(** [rfind] returns the position of the last occurrence. *)
Lemma rfind_last (c : ascii) (p b : string) :
  absent c b -> rfind c (p +:+ String c b) = Z.of_nat (String.length p).
Proof.
  intros Hb. induction p as [|d p IH]; simpl.
  - apply rfind_absent in Hb.
    destruct (Z.leb_spec 0 (rfind c b)); [lia|]. now rewrite Ascii.eqb_refl.
  - rewrite IH. destruct (Z.leb_spec 0 (Z.of_nat (String.length p))); lia.
Qed.

Lemma substring_app (a m b : string) :
  String.substring (String.length a) (String.length m) (a +:+ m +:+ b) = m.
Proof.
  induction a as [|d a IH]; simpl; [|exact IH].
  revert b; induction m as [|x m IHm]; intros b; simpl.
  - now destruct b.
  - now rewrite IHm.
Qed.

Lemma slice_app (a m b : string) :
  slice (Z.of_nat (String.length a))
        (Z.of_nat (String.length a) + Z.of_nat (String.length m))
        (a +:+ m +:+ b) = m.
Proof.
  unfold slice.
  replace (Z.to_nat (Z.of_nat (String.length a) + Z.of_nat (String.length m)
                     - Z.of_nat (String.length a))) with (String.length m) by lia.
  rewrite Nat2Z.id. apply substring_app.
Qed.

(** An empty or reversed range is the empty slice. *)
Lemma slice_empty (i j : Z) (s : string) : j <= i -> slice i j s = "".
Proof.
  intros H. unfold slice. replace (Z.to_nat (j - i)) with 0%nat by lia.
  generalize (Z.to_nat i). induction s as [|d s IH]; intros [|n]; simpl; auto.
Qed.

(** The first occurrence of [c] in a text that has one at a known place. *)
Lemma first_split (c : ascii) (x r : string) :
  exists a u, x +:+ String c r = a +:+ String c (u +:+ r) /\ absent c a.
Proof.
  induction x as [|d x IH].
  - exists "", "". simpl. auto.
  - destruct (ascii_dec d c) as [->|Hne].
    + exists "", (x +:+ String c ""). simpl. split; [|trivial].
      now rewrite str_app_assoc.
    + destruct IH as (a & u & E & Ha). exists (String d a), u. simpl.
      rewrite E. auto.
Qed.

(** The last occurrence of [c] in a text that has one. *)
Lemma last_split (c : ascii) (s : string) :
  ~ absent c s -> exists w b, s = w +:+ String c b /\ absent c b.
Proof.
  induction s as [|d s IH]; simpl; [tauto|]. intros H.
  destruct (absent_dec c s) as [Hs|Hs].
  - destruct (ascii_dec d c) as [->|Hne]; [|tauto].
    exists "", s. auto.
  - destruct (IH Hs) as (w & b & -> & Hb). exists (String d w), b. auto.
Qed.

End PyStrFacts.

(** ** Category classifier *)

Section Classifier.
Import PyStr PyStrFacts.

Lemma any_in_true (ws : list string) (s : string) :
  any_in ws s = true <-> exists w, w ∈ ws /\ occurs w s.
Proof.
  unfold any_in. rewrite existsb_exists. split.
  - intros (w & Hin & Hw). exists w. split; [now apply list_elem_of_In|].
    now apply contains_occurs.
  - intros (w & Hin & Hw). exists w. split; [now apply list_elem_of_In|].
    now apply contains_occurs.
Qed.

Lemma any_in_false (ws : list string) (s : string) :
  any_in ws s = false <-> forall w, w ∈ ws -> ~ occurs w s.
Proof.
  rewrite <- not_true_iff_false, any_in_true. split.
  - intros H w Hin Hw. apply H. eauto.
  - intros H (w & Hin & Hw). exact (H w Hin Hw).
Qed.

Lemma any_in_app (ws1 ws2 : list string) (s : string) :
  any_in (ws1 ++ ws2) s = any_in ws1 s || any_in ws2 s.
Proof. apply existsb_app. Qed.

(** No keyword of the classifier has a blank in it. *)
Lemma keywords_no_space (w : string) :
  w ∈ bacterial_words ++ fungal_words ++ insect_words -> no_space w = true.
Proof.
  intros Hin. apply list_elem_of_In in Hin. revert w Hin.
  apply forallb_forall. vm_compute. reflexivity.
Qed.

(** The separating blank never completes a keyword: a keyword is in the
    scanned text exactly when it is in one of the two lower-cased texts. *)
Lemma keyword_in_scanned_text (d t w : string) :
  w ∈ bacterial_words ++ fungal_words ++ insect_words ->
  occurs w (scanned_text d t) <-> occurs w (lower d) \/ occurs w (lower t).
Proof.
  intros Hw. unfold scanned_text. rewrite !or_empty_id.
  rewrite <- !contains_occurs, (contains_app_space _ _ _ (keywords_no_space w Hw)).
  apply orb_true_iff.
Qed.

Lemma detect_category_classify (d t : string) :
  detect_category d t = classify_spec (scanned_text d t).
Proof.
  unfold detect_category, classify_spec, priority_table. cbn [first_match].
  destruct (any_in bacterial_words (scanned_text d t)); [reflexivity|].
  destruct (any_in fungal_words (scanned_text d t)); [reflexivity|].
  destruct (any_in insect_words (scanned_text d t)); reflexivity.
Qed.

Lemma detect_category_bacterial (d t : string) :
  any_in bacterial_words (scanned_text d t) = true ->
  detect_category d t = Bacterial.
Proof. unfold detect_category. now intros ->. Qed.

(** C3: for every pair of texts, the classifier scans the lower-cased
    texts joined by a blank against the three keyword sets in the order
    bacterial, fungal, insect; the first set with a keyword in the text
    decides, a bacterial keyword wins over any other, and without a
    bacterial or fungal keyword (so in particular without any keyword)
    the answer is insect.  [str_lower] is [str.lower]; on ASCII text
    the classifier is [detect_category]. *)
Theorem detect_category_priority (str_lower : string -> string)
    (disease_text treatment_text : string) :
  let dl := scanned_text_with str_lower disease_text treatment_text in
  detect_category_with str_lower disease_text treatment_text = classify_spec dl
  /\ ((exists w, w ∈ bacterial_words /\ occurs w dl) ->
      detect_category_with str_lower disease_text treatment_text = Bacterial)
  /\ ((forall w, w ∈ bacterial_words -> ~ occurs w dl) ->
      (exists w, w ∈ fungal_words /\ occurs w dl) ->
      detect_category_with str_lower disease_text treatment_text = Fungal)
  /\ ((forall w, w ∈ bacterial_words ++ fungal_words -> ~ occurs w dl) ->
      detect_category_with str_lower disease_text treatment_text = Insect)
  /\ (forall w, w ∈ bacterial_words ++ fungal_words ++ insect_words ->
      (occurs w dl <->
       occurs w (str_lower disease_text) \/ occurs w (str_lower treatment_text)))
  /\ detect_category_with lower disease_text treatment_text =
     detect_category disease_text treatment_text.
Proof.
  intros dl. split; [|split; [|split; [|split; [|split]]]].
  - unfold detect_category_with, classify_spec, priority_table. fold dl.
    cbn [first_match].
    destruct (any_in bacterial_words dl); [reflexivity|].
    destruct (any_in fungal_words dl); [reflexivity|].
    destruct (any_in insect_words dl); reflexivity.
  - intros H. apply any_in_true in H.
    unfold detect_category_with. fold dl. now rewrite H.
  - intros Hb Hf. unfold detect_category_with. fold dl.
    apply any_in_false in Hb. apply any_in_true in Hf. now rewrite Hb, Hf.
  - intros H. apply any_in_false in H. rewrite any_in_app in H.
    apply orb_false_iff in H as [Hb Hf].
    unfold detect_category_with. fold dl. rewrite Hb, Hf.
    now destruct (any_in insect_words dl).
  - intros w Hw. unfold dl, scanned_text_with. rewrite !or_empty_id.
    rewrite <- !contains_occurs,
      (contains_app_space _ _ _ (keywords_no_space w Hw)).
    apply orb_true_iff.
  - reflexivity.
Qed.

End Classifier.

(** ** Active-ingredient extractor *)

Section Extractor.
Import PyStr PyStrFacts.

Lemma first_seen_elem (l : list string) (seen : gset string) (a : string) :
  a ∈ first_seen seen l <-> a ∈ l /\ a ∉ seen.
Proof.
  revert seen; induction l as [|b l IH]; intros seen; simpl.
  - set_solver.
  - case_bool_decide as Hb.
    + rewrite IH. set_solver.
    + rewrite elem_of_cons, IH. destruct (decide (a = b)); set_solver.
Qed.

Lemma first_seen_NoDup (l : list string) (seen : gset string) :
  NoDup (first_seen seen l).
Proof.
  revert seen; induction l as [|b l IH]; intros seen; simpl.
  - constructor.
  - case_bool_decide; [apply IH|]. constructor; [|apply IH].
    rewrite first_seen_elem. set_solver.
Qed.

(** Catalog order enumerates the keyword set. *)
Lemma catalog_order_iteration (C : Catalog) :
  iteration_order (catalog_order C) (keyword_set C).
Proof.
  split; [apply first_seen_NoDup|]. intros a.
  unfold catalog_order, keyword_set. rewrite first_seen_elem. set_solver.
Qed.

Lemma iteration_order_rev (order : list string) (s : gset string) :
  iteration_order order s -> iteration_order (reverse order) s.
Proof.
  intros [Hnd Hin]. split.
  - now rewrite reverse_Permutation.
  - intros a. rewrite elem_of_reverse. apply Hin.
Qed.

Lemma elem_of_filter_bool {A : Type} (f : A -> bool) (l : list A) (x : A) :
  x ∈ List.filter f l <-> x ∈ l /\ f x = true.
Proof. rewrite !list_elem_of_In. apply filter_In. Qed.

Lemma NoDup_filter_bool {A : Type} (f : A -> bool) (l : list A) :
  NoDup l -> NoDup (List.filter f l).
Proof.
  induction 1 as [|x l Hx Hl IH]; simpl; [constructor|].
  destruct (f x); [|exact IH]. constructor; [|exact IH].
  rewrite elem_of_filter_bool. tauto.
Qed.

(** The loop over an order without repetition keeps exactly the
    members found in the text, in that order. *)
Lemma extract_fold (text_l : string) (l found : list string) (seen : gset string) :
  NoDup l -> (forall a, a ∈ l -> a ∉ seen) ->
  (fold_left (extract_step text_l) l (found, seen)).1 =
  found ++ List.filter (fun a => contains a text_l) l.
Proof.
  intros Hnd. revert found seen.
  induction Hnd as [|a l Ha Hl IH]; intros found seen Hseen; simpl.
  - now rewrite List.app_nil_r.
  - assert (a ∉ seen) as Hna by (apply Hseen; left).
    rewrite (bool_decide_eq_false_2 _ Hna).
    destruct (contains a text_l); simpl.
    + rewrite IH; [now rewrite <- List.app_assoc|].
      intros b Hb. specialize (Hseen b (list_elem_of_further _ _ _ Hb)).
      set_solver.
    + apply IH. intros b Hb. apply Hseen. now right.
Qed.

Lemma extract_actives_filter (order : list string) (text : string) :
  NoDup order ->
  extract_actives order text =
  List.filter (fun a => contains a (lower text)) order.
Proof.
  intros Hnd. unfold extract_actives. rewrite or_empty_id.
  rewrite (extract_fold _ _ [] ∅ Hnd); [reflexivity | set_solver].
Qed.

(** Every catalog active has at least one character. *)
Lemma actives_nonempty (a : string) : a ∈ ACTIVE_KEYWORDS -> a <> "".
Proof.
  unfold ACTIVE_KEYWORDS, keyword_set. rewrite elem_of_list_to_set.
  intros Hin ->. apply list_elem_of_In in Hin. vm_compute in Hin.
  intuition discriminate.
Qed.

(** The catalog spells its actives in lower case. *)
Lemma actives_lower (a : string) : a ∈ catalog_actives CATALOG -> lower a = a.
Proof.
  intros Hin. apply list_elem_of_In in Hin. vm_compute in Hin.
  repeat (destruct Hin as [<-|Hin]; [reflexivity|]). destruct Hin.
Qed.

Lemma contains_empty_text (a : string) : a <> "" -> contains a "" = false.
Proof. now destruct a. Qed.

Lemma extract_actives_empty (order : list string) :
  iteration_order order ACTIVE_KEYWORDS -> extract_actives order "" = [].
Proof.
  intros [Hnd Hin]. rewrite (extract_actives_filter _ _ Hnd).
  change (lower "") with "".
  assert (forall a, a ∈ order -> a <> "") as Hne
    by (intros a Ha; apply actives_nonempty, Hin, Ha).
  clear Hnd Hin. induction order as [|a l IH]; cbn [List.filter]; [reflexivity|].
  rewrite (contains_empty_text a); [|apply Hne; left].
  apply IH. intros b Hb. apply Hne. now right.
Qed.

(** C2 (amended): the extractor lists the members of the keyword set
    that occur in the lower-cased text, each once, in the order in
    which the running process iterates the set; that order is catalog
    order only when the set happens to be iterated in catalog order. *)
Theorem extract_actives_members (order : list string) (text : string) :
  iteration_order order ACTIVE_KEYWORDS ->
  extract_actives order text =
    List.filter (fun a => contains a (lower text)) order
  /\ NoDup (extract_actives order text)
  /\ (forall a, a ∈ extract_actives order text <->
                a ∈ catalog_actives CATALOG /\ occurs a (lower text))
  /\ (forall a, a ∈ catalog_actives CATALOG -> lower a = a)
  /\ (order = catalog_order CATALOG ->
      extract_actives order text = extract_actives_spec CATALOG text).
Proof.
  intros [Hnd Hin]. pose proof (extract_actives_filter order text Hnd) as E.
  split; [exact E|]. rewrite E. split; [now apply NoDup_filter_bool|].
  split; [|split].
  - intros a. rewrite elem_of_filter_bool, Hin, contains_occurs.
    unfold ACTIVE_KEYWORDS, keyword_set. now rewrite elem_of_list_to_set.
  - apply actives_lower.
  - now intros ->.
Qed.

Lemma extract_actives_members_witness :
  iteration_order reversed_order ACTIVE_KEYWORDS
  /\ extract_actives reversed_order "Copper soap, then SULFUR" =
     ["sulfur"; "copper"].
Proof.
  assert (iteration_order reversed_order ACTIVE_KEYWORDS) as H
    by apply iteration_order_rev, catalog_order_iteration.
  split; [exact H|].
  rewrite (proj1 (extract_actives_members reversed_order
                    "Copper soap, then SULFUR" H)).
  reflexivity.
Defined.

(** C2 as stated fails: iterated in another order than catalog order,
    the keyword set yields the matches in that other order. *)
Lemma extract_actives_catalog_order_fails :
  ~ (forall order text,
       iteration_order order ACTIVE_KEYWORDS ->
       extract_actives order text = extract_actives_spec CATALOG text).
Proof.
  intros H.
  specialize (H reversed_order "copper and sulfur"
                (iteration_order_rev _ _ (catalog_order_iteration CATALOG))).
  vm_compute in H. discriminate H.
Qed.

(** C8: on the empty text the extractor returns the empty list, and
    running it twice on one text gives twice the same list and leaves
    the module state as it was. *)
Theorem extract_actives_empty_and_repeatable (g : Globals) (text : string) :
  iteration_order (keyword_order g) ACTIVE_KEYWORDS ->
  (extract_actives_run g "").1 = []
  /\ (let '(r1, g1) := extract_actives_run g text in
      let '(r2, g2) := extract_actives_run g1 text in
      r2 = r1 /\ g2 = g).
Proof.
  intros H. split; [now apply extract_actives_empty|]. simpl. auto.
Qed.

Lemma extract_actives_empty_and_repeatable_witness :
  iteration_order (keyword_order (mkGlobals reversed_order)) ACTIVE_KEYWORDS
  /\ (extract_actives_run (mkGlobals reversed_order) "").1 = [].
Proof.
  assert (iteration_order (keyword_order (mkGlobals reversed_order))
            ACTIVE_KEYWORDS) as H
    by apply iteration_order_rev, catalog_order_iteration.
  split; [exact H|].
  exact (proj1 (extract_actives_empty_and_repeatable
                  (mkGlobals reversed_order) "sulfur" H)).
Defined.

End Extractor.

(** ** Recommendation selector *)

Section Selector.
Import PyStr PyStrFacts.

Lemma collect_item_fold (a : string) (items chosen : list CatalogEntry)
    (e : CatalogEntry) :
  e ∈ fold_left (collect_item a) items chosen -> e ∈ chosen \/ e ∈ items.
Proof.
  revert chosen; induction items as [|item items IH]; intros chosen; simpl.
  - auto.
  - intros H. apply IH in H as [H|H]; [|right; now right].
    unfold collect_item in H. case_decide; [|now left].
    apply elem_of_app in H as [H|H]; [now left|].
    apply list_elem_of_singleton in H as ->. right; left.
Qed.

Lemma collect_fold (cl : list CatalogEntry) (actives : list string)
    (chosen : list CatalogEntry) (e : CatalogEntry) :
  e ∈ fold_left (collect_active cl) actives chosen -> e ∈ chosen \/ e ∈ cl.
Proof.
  revert chosen; induction actives as [|a actives IH]; intros chosen; simpl.
  - auto.
  - intros H. apply IH in H as [H|H]; [|now right].
    now apply collect_item_fold in H.
Qed.

(** Only entries of the category's list are collected. *)
Lemma collect_subset (cl : list CatalogEntry) (actives : list string)
    (e : CatalogEntry) :
  e ∈ collect cl actives -> e ∈ cl.
Proof.
  intros H. apply collect_fold in H as [H|H]; [|exact H].
  now apply elem_of_nil in H.
Qed.

Lemma backfill_subset (items chosen : list CatalogEntry) (e : CatalogEntry) :
  e ∈ backfill items chosen -> e ∈ chosen \/ e ∈ items.
Proof.
  revert chosen; induction items as [|item items IH]; intros chosen;
    cbn [backfill].
  - auto.
  - case_bool_decide as Hin.
    + intros H. apply IH in H as [H|H]; [now left | right; now right].
    + assert (e ∈ chosen ++ [item] -> e ∈ chosen \/ e ∈ item :: items) as Happ.
      { intros H. apply elem_of_app in H as [H|H]; [now left|].
        apply list_elem_of_singleton in H as ->. right; left. }
      destruct (2 <=? length (chosen ++ [item]))%nat; [exact Happ|].
      intros H. apply IH in H as [H|H]; [now apply Happ | right; now right].
Qed.

Lemma filter_nothing_chosen (items : list CatalogEntry) :
  filter (fun i => i ∉ []) items = items.
Proof.
  induction items as [|x items IH]; [reflexivity|].
  rewrite filter_cons_True by apply not_elem_of_nil. now rewrite IH.
Qed.

Lemma filter_absent (item : CatalogEntry) (items : list CatalogEntry) :
  item ∉ items ->
  filter (fun i => i ∉ [item]) items = filter (fun i => i ∉ []) items.
Proof.
  induction items as [|x items IH]; intros Hitem; [reflexivity|].
  apply not_elem_of_cons in Hitem as [Hx Hitem].
  rewrite !filter_cons_True; [now rewrite IH | apply not_elem_of_nil |].
  intros Hin. apply list_elem_of_singleton in Hin. congruence.
Qed.

(** The backfill loop appends the entries not chosen yet, in catalog
    order, until two entries are chosen or the list is exhausted. *)
Lemma backfill_spec (items chosen : list CatalogEntry) :
  NoDup items -> (length chosen < 2)%nat ->
  backfill items chosen =
  chosen ++ take (2 - length chosen) (filter (fun i => i ∉ chosen) items).
Proof.
  intros Hnd. revert chosen.
  induction Hnd as [|item items Hitem Hnd IH]; intros chosen Hlen;
    cbn [backfill].
  - rewrite filter_nil, take_nil. now rewrite List.app_nil_r.
  - case_bool_decide as Hin.
    + rewrite filter_cons_False by tauto. now apply IH.
    + rewrite filter_cons_True by exact Hin.
      destruct chosen as [|x [|y chosen]]; simpl in Hlen; [| |lia].
      * simpl. rewrite (IH [item]) by (simpl; lia). simpl. do 2 f_equal.
        now apply filter_absent.
      * reflexivity.
Qed.

Lemma filter_other_length (x : CatalogEntry) (items : list CatalogEntry) :
  NoDup items ->
  (length items <= S (length (filter (fun i => i ∉ [x]) items)))%nat.
Proof.
  induction 1 as [|item items Hitem Hnd IH]; [simpl; lia|].
  destruct (decide (item = x)) as [->|Hne].
  - rewrite filter_cons_False by (intros H; apply H; left).
    rewrite (filter_absent x items Hitem), filter_nothing_chosen.
    simpl. lia.
  - rewrite filter_cons_True; [simpl; lia|].
    intros Hin. now apply list_elem_of_singleton in Hin.
Qed.

(** After the backfill at least two entries are chosen, or all of them. *)
Lemma backfill_length (items chosen : list CatalogEntry) :
  NoDup items -> (length chosen < 2)%nat ->
  (Nat.min 2 (length items) <= length (backfill items chosen))%nat.
Proof.
  intros Hnd Hlen. rewrite (backfill_spec _ _ Hnd Hlen).
  rewrite length_app, length_take.
  destruct chosen as [|x [|y chosen]]; simpl in Hlen; [| |lia].
  - rewrite filter_nothing_chosen. simpl. lia.
  - pose proof (filter_other_length x items Hnd). simpl length. lia.
Qed.

Variable C : Catalog.
Variable order : list string.

Lemma curated_products_subset (recommendation disease_name : string)
    (e : CatalogEntry) :
  e ∈ curated_products C order recommendation disease_name ->
  e ∈ catalog_get C (category_key (detect_category disease_name recommendation)).
Proof.
  unfold curated_products.
  destruct (catalog_get C _) as [|item cl] eqn:Ecl; [intros H; now apply elem_of_nil in H|].
  destruct (extract_actives order recommendation) as [|a actives].
  - apply subseteq_take.
  - intros H. apply subseteq_take in H.
    destruct (length (collect (item :: cl) (a :: actives)) <? 2)%nat.
    + apply backfill_subset in H as [H|H]; [|exact H].
      now apply collect_subset in H.
    + now apply collect_subset in H.
Qed.

Lemma curated_products_empty (recommendation disease_name : string) :
  catalog_get C (category_key (detect_category disease_name recommendation)) = [] ->
  curated_products C order recommendation disease_name = [].
Proof. unfold curated_products. now intros ->. Qed.

Lemma curated_products_length_le (recommendation disease_name : string) :
  (length (curated_products C order recommendation disease_name) <= 4)%nat.
Proof.
  unfold curated_products.
  destruct (catalog_get C _) as [|item cl]; [simpl; lia|].
  destruct (extract_actives order recommendation) as [|a actives];
    rewrite length_take; lia.
Qed.

Lemma curated_products_length_ge (recommendation disease_name : string) :
  NoDup (catalog_get C (category_key (detect_category disease_name recommendation))) ->
  (Nat.min 2 (length (catalog_get C
               (category_key (detect_category disease_name recommendation))))
   <= length (curated_products C order recommendation disease_name))%nat.
Proof.
  unfold curated_products.
  destruct (catalog_get C _) as [|item cl]; [simpl; lia|]. intros Hnd.
  destruct (extract_actives order recommendation) as [|a actives];
    rewrite length_take; [lia|].
  destruct (Nat.ltb_spec (length (collect (item :: cl) (a :: actives))) 2)
    as [Hlt|Hge]; [|lia].
  pose proof (backfill_length _ _ Hnd Hlt). lia.
Qed.

End Selector.

(** *** The selector on the curated catalog *)

Section CuratedCatalog.
Import PyStr PyStrFacts.

Lemma CATALOG_NoDup (c : Category) :
  NoDup (catalog_get CATALOG (category_key c)).
Proof. destruct c; apply (bool_decide_unpack _); vm_compute; exact I. Qed.

(** No entry is listed under two categories. *)
Lemma CATALOG_disjoint (c c' : Category) (e : CatalogEntry) :
  c <> c' ->
  e ∈ catalog_get CATALOG (category_key c) ->
  e ∉ catalog_get CATALOG (category_key c').
Proof.
  intros Hne Hin Hin'.
  assert (active e ∈ map active (catalog_get CATALOG (category_key c))) as Ha
    by (apply list_elem_of_In, in_map, list_elem_of_In, Hin).
  assert (active e ∈ map active (catalog_get CATALOG (category_key c'))) as Ha'
    by (apply list_elem_of_In, in_map, list_elem_of_In, Hin').
  apply list_elem_of_In in Ha, Ha'.
  destruct c, c'; try congruence; vm_compute in Ha, Ha';
    intuition congruence.
Qed.

Lemma mentions_bacterial (disease_name recommendation : string) :
  occurs "bacterial spot" (lower disease_name) ->
  detect_category disease_name recommendation = Bacterial.
Proof.
  intros H. apply detect_category_bacterial, any_in_true.
  exists "bacteria". split; [left|].
  unfold scanned_text. rewrite or_empty_id. apply occurs_app_l.
  apply (occurs_trans _ "bacterial spot"); [|exact H].
  exists "", "l spot". reflexivity.
Qed.

(** C1 as stated fails: the bacterial list is not empty, yet the
    selector returns a single entry. *)
Lemma curated_products_bacterial_single :
  catalog_get CATALOG (category_key (detect_category "bacterial spot" "")) <> []
  /\ length (curated_products CATALOG (catalog_order CATALOG) ""
               "bacterial spot") = 1%nat.
Proof. split; [vm_compute; discriminate | vm_compute; reflexivity]. Qed.

(** C6: when the recommendation names a known active and the disease
    name mentions "bacterial spot" (in any capitalisation), the first
    entry returned has the active "copper". *)
Theorem curated_products_copper_first (order : list string)
    (recommendation disease_name : string) :
  (exists a, a ∈ ACTIVE_KEYWORDS /\ occurs a (lower recommendation)) ->
  occurs "bacterial spot" (lower disease_name) ->
  exists e rest,
    curated_products CATALOG order recommendation disease_name = e :: rest
    /\ active e = "copper".
Proof.
  intros _ Hd.
  pose proof (mentions_bacterial disease_name recommendation Hd) as Hcat.
  pose proof (curated_products_length_ge CATALOG order recommendation
                disease_name (CATALOG_NoDup _)) as Hlen.
  pose proof (curated_products_subset CATALOG order recommendation
                disease_name) as Hsub.
  rewrite Hcat in Hlen, Hsub.
  destruct (curated_products CATALOG order recommendation disease_name)
    as [|e rest]; [vm_compute in Hlen; lia|].
  exists e, rest. split; [reflexivity|].
  specialize (Hsub e (list_elem_of_here _ _)).
  apply list_elem_of_In in Hsub. vm_compute in Hsub.
  destruct Hsub as [<-|[]]. reflexivity.
Qed.

Lemma curated_products_copper_first_witness :
  exists e rest,
    curated_products CATALOG (catalog_order CATALOG) "apply copper spray"
      "bacterial spot" = e :: rest
    /\ active e = "copper".
Proof.
  apply curated_products_copper_first.
  - exists "copper". split; [vm_compute; reflexivity|].
    exists "apply ", " spray". reflexivity.
  - exists "", "". reflexivity.
Defined.

(** C10: every entry returned is listed under the category that
    [detect_category] resolves, for any catalog; nothing is returned
    when that category lists nothing; and on the curated catalog no
    returned entry is listed under another category. *)
Theorem curated_products_single_category (C : Catalog) (order : list string)
    (recommendation disease_name : string) :
  let category := detect_category disease_name recommendation in
  (forall e, e ∈ curated_products C order recommendation disease_name ->
             e ∈ catalog_get C (category_key category))
  /\ (catalog_get C (category_key category) = [] ->
      curated_products C order recommendation disease_name = [])
  /\ (forall e c',
        e ∈ curated_products CATALOG order recommendation disease_name ->
        c' <> category -> e ∉ catalog_get CATALOG (category_key c')).
Proof.
  intros category. split; [apply curated_products_subset|].
  split; [apply curated_products_empty|].
  intros e c' He Hne. apply (CATALOG_disjoint category); [congruence|].
  now apply curated_products_subset in He.
Qed.

End CuratedCatalog.

(** ** Analysis client *)

Section AnalysisClient.
Import PyStr PyStrFacts.

(** Between the first opening and the last closing brace. *)
Lemma brace_span_between (a m b : string) :
  absent "{" a -> absent "}" b ->
  find "{" (a +:+ "{" +:+ m +:+ "}" +:+ b) = Z.of_nat (String.length a)
  /\ rfind "}" (a +:+ "{" +:+ m +:+ "}" +:+ b) + 1 =
     Z.of_nat (String.length a) + Z.of_nat (String.length ("{" +:+ m +:+ "}"))
  /\ brace_span (a +:+ "{" +:+ m +:+ "}" +:+ b) = "{" +:+ m +:+ "}".
Proof.
  intros Ha Hb.
  assert (find "{" (a +:+ "{" +:+ m +:+ "}" +:+ b) = Z.of_nat (String.length a))
    as Hs by (apply (find_first "{" a (m +:+ "}" +:+ b) Ha)).
  assert (rfind "}" (a +:+ "{" +:+ m +:+ "}" +:+ b) + 1 =
          Z.of_nat (String.length a) +
          Z.of_nat (String.length ("{" +:+ m +:+ "}"))) as He.
  { replace (a +:+ "{" +:+ m +:+ "}" +:+ b)
      with ((a +:+ "{" +:+ m) +:+ String "}" b)
      by (now rewrite !str_app_assoc).
    rewrite (rfind_last "}" _ b Hb).
    repeat first [rewrite str_length_app | progress cbn [String.length]].
    lia. }
  split; [exact Hs|]. split; [exact He|].
  unfold brace_span. rewrite Hs, He.
  replace (a +:+ "{" +:+ m +:+ "}" +:+ b)
    with (a +:+ ("{" +:+ m +:+ "}") +:+ b)
    by (now rewrite !str_app_assoc).
  apply slice_app.
Qed.

(** A text with an opening brace and a closing brace after it splits
    at its first opening and its last closing brace. *)
Lemma brace_span_exists (x y z : string) :
  exists a m b,
    x +:+ "{" +:+ y +:+ "}" +:+ z = a +:+ "{" +:+ m +:+ "}" +:+ b
    /\ absent "{" a /\ absent "}" b.
Proof.
  destruct (first_split "{" x (y +:+ "}" +:+ z)) as (a & u & E & Ha).
  assert (~ absent "}" (String "}" z)) as Hz by (simpl; tauto).
  destruct (last_split "}" _ Hz) as (w & b & Ez & Hb).
  exists a, (u +:+ y +:+ w), b. split; [|auto].
  change (x +:+ "{" +:+ y +:+ "}" +:+ z)
    with (x +:+ String "{" (y +:+ "}" +:+ z)).
  rewrite E. change ("}" +:+ z) with (String "}" z). rewrite Ez.
  change (String "}" b) with ("}" +:+ b).
  simpl. now rewrite !str_app_assoc.
Qed.

Lemma has_braces (a m b : string) :
  ~ absent "{" (a +:+ "{" +:+ m +:+ "}" +:+ b)
  /\ ~ absent "}" (a +:+ "{" +:+ m +:+ "}" +:+ b).
Proof.
  split; intros H.
  - apply absent_app in H as [_ H]. simpl in H. tauto.
  - do 3 (apply absent_app in H as [_ H]). simpl in H. tauto.
Qed.

Variable json_loads : string -> json + string.

Lemma parse_response_no_brace (text : string) :
  absent "{" text \/ absent "}" text ->
  parse_response json_loads text =
  ErrorDict "Failed to parse the model response" text.
Proof.
  intros H. unfold parse_response. rewrite or_empty_id.
  assert (find "{" text < 0 \/ rfind "}" text + 1 <= 0) as Hneg.
  { destruct H as [H|H]; [left; now apply find_absent|].
    right. apply rfind_absent in H. lia. }
  destruct (Z.ltb_spec (find "{" text) 0); [reflexivity|].
  destruct (Z.leb_spec (rfind "}" text + 1) 0); [reflexivity | lia].
Qed.

Lemma parse_response_braces (text : string) :
  ~ absent "{" text -> ~ absent "}" text ->
  parse_response json_loads text =
  match json_loads (brace_span text) with
  | inl v => Decoded v
  | inr ex => ErrorDict ("Invalid JSON: " +:+ ex) (brace_span text)
  end.
Proof.
  intros Ho Hc. unfold parse_response, brace_span. rewrite or_empty_id.
  rewrite <- find_absent in Ho. rewrite <- rfind_absent in Hc.
  destruct (Z.ltb_spec (find "{" text) 0); [lia|].
  destruct (Z.leb_spec (rfind "}" text + 1) 0); [lia|]. reflexivity.
Qed.

(** C4: the parsing step always returns a dictionary.  Without an
    opening or without a closing brace it is the error dictionary with
    the fixed message and the whole text; with both, when the decoder
    rejects the brace span [text[s:e]], it is the error dictionary
    with the decoder's message and that span, the span being the text
    from the first opening to the last closing brace (and empty when
    the last closing brace comes before the first opening one). *)
Theorem parse_response_errors (text : string) :
  (absent "{" text \/ absent "}" text ->
   parse_response json_loads text =
   ErrorDict "Failed to parse the model response" text)
  /\ (~ absent "{" text -> ~ absent "}" text ->
      forall ex, json_loads (brace_span text) = inr ex ->
      parse_response json_loads text =
      ErrorDict ("Invalid JSON: " +:+ ex) (brace_span text))
  /\ (forall a m b,
        text = a +:+ "{" +:+ m +:+ "}" +:+ b ->
        absent "{" a -> absent "}" b ->
        brace_span text = "{" +:+ m +:+ "}")
  /\ (rfind "}" text < find "{" text -> brace_span text = "")
  /\ ((exists v, json_loads (brace_span text) = inl v
                 /\ parse_response json_loads text = Decoded v)
      \/ exists error raw, parse_response json_loads text = ErrorDict error raw).
Proof.
  split; [apply parse_response_no_brace|]. split; [|split; [|split]].
  - intros Ho Hc ex Hex. rewrite (parse_response_braces _ Ho Hc).
    now rewrite Hex.
  - intros a m b -> Ha Hb. now apply brace_span_between.
  - intros Hrev. apply slice_empty. lia.
  - destruct (absent_dec "{" text) as [Ho|Ho];
      [right; rewrite parse_response_no_brace; eauto|].
    destruct (absent_dec "}" text) as [Hc|Hc];
      [right; rewrite parse_response_no_brace; eauto|].
    rewrite (parse_response_braces _ Ho Hc).
    destruct (json_loads (brace_span text)) as [v|ex]; eauto.
Qed.

Lemma parse_response_span (a m b : string) :
  absent "{" a -> absent "}" b ->
  parse_response json_loads (a +:+ "{" +:+ m +:+ "}" +:+ b) =
  match json_loads ("{" +:+ m +:+ "}") with
  | inl v => Decoded v
  | inr ex => ErrorDict ("Invalid JSON: " +:+ ex) ("{" +:+ m +:+ "}")
  end.
Proof.
  intros Ha Hb. destruct (has_braces a m b) as [Ho Hc].
  rewrite (parse_response_braces _ Ho Hc).
  destruct (brace_span_between a m b Ha Hb) as (_ & _ & ->). reflexivity.
Qed.

End AnalysisClient.

(** C5: when the response has an opening brace and a closing brace after
    it, the brace span runs from the first opening to the last closing
    brace, and whatever the decoder makes of it is returned as it is;
    the sample response of the specification yields its three fields. *)
Theorem parse_response_decodes (json_loads : string -> json + string) :
  (forall x y z v,
     json_loads (brace_span (x +:+ "{" +:+ y +:+ "}" +:+ z)) = inl v ->
     parse_response json_loads (x +:+ "{" +:+ y +:+ "}" +:+ z) = Decoded v)
  /\ (forall x y z, exists a m b,
        x +:+ "{" +:+ y +:+ "}" +:+ z = a +:+ "{" +:+ m +:+ "}" +:+ b
        /\ PyStr.find "{" (x +:+ "{" +:+ y +:+ "}" +:+ z) =
           Z.of_nat (String.length a)
        /\ PyStr.rfind "}" (x +:+ "{" +:+ y +:+ "}" +:+ z) =
           Z.of_nat (String.length (a +:+ "{" +:+ m))
        /\ brace_span (x +:+ "{" +:+ y +:+ "}" +:+ z) = "{" +:+ m +:+ "}")
  /\ brace_span sample_response = sample_object
  /\ (forall v, json_loads sample_object = inl v ->
                parse_response json_loads sample_response = Decoded v)
  /\ SampleDecoder.json_decode sample_object = Some sample_analysis
  /\ parse_response SampleDecoder.loads sample_response = Decoded sample_analysis.
Proof.
  split; [|split; [|split; [|split; [|split]]]].
  - intros x y z v Hv.
    destruct (has_braces x y z) as [Ho Hc].
    rewrite (parse_response_braces _ _ Ho Hc). now rewrite Hv.
  - intros x y z. destruct (brace_span_exists x y z) as (a & m & b & E & Ha & Hb).
    exists a, m, b. rewrite E.
    destruct (brace_span_between a m b Ha Hb) as (Hs & He & Hspan).
    repeat split; auto.
    repeat first [rewrite PyStrFacts.str_length_app in He
                 | progress cbn [String.length] in He].
    repeat first [rewrite PyStrFacts.str_length_app
                 | progress cbn [String.length]].
    lia.
  - vm_compute. reflexivity.
  - intros v Hv.
    assert (brace_span sample_response = sample_object) as Hspan
      by (vm_compute; reflexivity).
    rewrite parse_response_braces; [now rewrite Hspan, Hv | |];
      vm_compute; tauto.
  - vm_compute. reflexivity.
  - vm_compute. reflexivity.
Qed.

(** ** Summary synthesizer *)

Section Summary.
Import PyStr PyStrFacts.

Variable container_repr : json -> string.

Lemma field_missing (d : list (string * json)) (k dflt : string) :
  dict_get d k = None -> field container_repr d k dflt = dflt.
Proof. unfold field. now intros ->. Qed.

Lemma field_str (d : list (string * json)) (k dflt s : string) :
  dict_get d k = Some (JStr s) -> field container_repr d k dflt = s.
Proof. unfold field. now intros ->. Qed.

(** The sentence for a finding, with the defaults of the code. *)
Lemma finding_sentence_object (d : list (string * json)) :
  finding_sentence container_repr (JObj d) =
  Returns (field container_repr d "name" "Unknown" +:+ ". Symptoms: " +:+
           field container_repr d "symptoms" "" +:+ ". Treatment: " +:+
           field container_repr d "treatment" "" +:+ ". Prevention: " +:+
           field container_repr d "prevention" "" +:+ ".").
Proof.
  reflexivity.
Qed.

Lemma for_each_objects (ds : list (list (string * json))) :
  for_each (finding_sentence container_repr) (map JObj ds) =
  Returns (map (fun d =>
    field container_repr d "name" "Unknown" +:+ ". Symptoms: " +:+
    field container_repr d "symptoms" "" +:+ ". Treatment: " +:+
    field container_repr d "treatment" "" +:+ ". Prevention: " +:+
    field container_repr d "prevention" "" +:+ ".") ds).
Proof.
  induction ds as [|d ds IH]; [reflexivity|].
  cbn [map for_each]. rewrite finding_sentence_object, IH. reflexivity.
Qed.

Lemma summary_healthy (analysis : list (string * json)) (plant_name : string) :
  truthy_get analysis "is_healthy" = true ->
  summary_text container_repr analysis plant_name =
  Returns ("Your " +:+ plant_name +:+
           " plant appears healthy. Keep doing what you are doing.").
Proof. unfold summary_text. now intros ->. Qed.

(** C7 (amended): the summary follows three branches in order.  With a
    true [is_healthy] it is the reassurance sentence, which contains
    the plant name.  Otherwise, with a non-empty list of findings, it
    is "Detected issues: " followed by one sentence per finding in
    order, joined by blanks, made of name, symptoms, treatment and
    prevention; a missing name is rendered as "Unknown", a missing
    symptoms, treatment or prevention field as the empty string, and a
    field holding a string as that string.  Otherwise it is the
    inconclusive sentence. *)
Theorem summary_text_branches (analysis : list (string * json))
    (plant_name : string) :
  (truthy_get analysis "is_healthy" = true ->
   summary_text container_repr analysis plant_name =
     Returns ("Your " +:+ plant_name +:+
              " plant appears healthy. Keep doing what you are doing.")
   /\ occurs plant_name
        ("Your " +:+ plant_name +:+
         " plant appears healthy. Keep doing what you are doing."))
  /\ (truthy_get analysis "is_healthy" = false ->
      forall ds, ds <> [] ->
      dict_get analysis "results" = Some (JArr (map JObj ds)) ->
      summary_text container_repr analysis plant_name =
      Returns ("Detected issues: " +:+ join " " (map (fun d =>
        field container_repr d "name" "Unknown" +:+ ". Symptoms: " +:+
        field container_repr d "symptoms" "" +:+ ". Treatment: " +:+
        field container_repr d "treatment" "" +:+ ". Prevention: " +:+
        field container_repr d "prevention" "" +:+ ".") ds)))
  /\ (truthy_get analysis "is_healthy" = false ->
      truthy_get analysis "results" = false ->
      summary_text container_repr analysis plant_name =
      Returns "Analysis inconclusive.")
  /\ (forall d k dflt,
        (dict_get d k = None -> field container_repr d k dflt = dflt)
        /\ (forall s, dict_get d k = Some (JStr s) ->
                      field container_repr d k dflt = s)).
Proof.
  split; [|split; [|split]].
  - intros H. split; [now apply summary_healthy|].
    exists "Your ", " plant appears healthy. Keep doing what you are doing.".
    reflexivity.
  - intros Hh ds Hds Hres. unfold summary_text, truthy_get.
    unfold truthy_get in Hh. rewrite Hh, Hres.
    destruct ds as [|d ds]; [congruence|].
    cbn [truthy map]. change (JObj d :: map JObj ds) with (map JObj (d :: ds)).
    rewrite for_each_objects. reflexivity.
  - intros Hh Hr. unfold summary_text. now rewrite Hh, Hr.
  - intros d k dflt. split; [apply field_missing|].
    intros s. apply field_str.
Qed.

End Summary.

(** C7 as stated fails: a finding without a name is spoken as "Unknown",
    not as the empty string. *)
Lemma summary_text_missing_name :
  summary_text SampleDecoder.container_repr nameless_analysis "tomato" =
    Returns "Detected issues: Unknown. Symptoms: yellow spots. Treatment: apply copper. Prevention: ."
  /\ summary_text SampleDecoder.container_repr nameless_analysis "tomato" <>
     Returns ("Detected issues: " +:+
              PyStr.join " "
                (map (finding_sentence_spec SampleDecoder.container_repr)
                     [nameless_finding])).
Proof. split; [vm_compute; reflexivity | vm_compute; discriminate]. Qed.

(** ** Image normalization *)

Section ImageNormalization.

Variable codec : ImageCodec.

Lemma reencode_returns (raw_bytes out : list Byte.byte) :
  reencode codec raw_bytes = Returns out <->
  exists im rgb,
    image_open codec raw_bytes = Returns im
    /\ image_convert codec im "RGB" = Returns rgb
    /\ image_save codec rgb "JPEG" 92 = Returns out.
Proof.
  unfold reencode. split.
  - destruct (image_open codec raw_bytes) as [im|exc] eqn:Eo; simpl; [|discriminate].
    destruct (image_convert codec im "RGB") as [rgb|exc] eqn:Ec; simpl; [|discriminate].
    intros Hs. eauto.
  - intros (im & rgb & -> & Hc & Hs). simpl. rewrite Hc. simpl. exact Hs.
Qed.

(** C9: the normalization step always returns bytes.  They are the
    bytes the codec saved as JPEG at quality 92 from the image
    converted to RGB when the three codec calls return, and the input
    bytes themselves as soon as decoding (or any later codec call)
    raises. *)
Theorem to_jpeg_bytes_fallback (raw_bytes : list Byte.byte) :
  (forall im rgb out,
     image_open codec raw_bytes = Returns im ->
     image_convert codec im "RGB" = Returns rgb ->
     image_save codec rgb "JPEG" 92 = Returns out ->
     to_jpeg_bytes codec raw_bytes = out)
  /\ (forall exc, image_open codec raw_bytes = Raises exc ->
                  to_jpeg_bytes codec raw_bytes = raw_bytes)
  /\ (forall exc, reencode codec raw_bytes = Raises exc ->
                  to_jpeg_bytes codec raw_bytes = raw_bytes)
  /\ ((exists im rgb,
         image_open codec raw_bytes = Returns im
         /\ image_convert codec im "RGB" = Returns rgb
         /\ image_save codec rgb "JPEG" 92 =
            Returns (to_jpeg_bytes codec raw_bytes))
      \/ to_jpeg_bytes codec raw_bytes = raw_bytes).
Proof.
  split; [|split; [|split]].
  - intros im rgb out Ho Hc Hs. unfold to_jpeg_bytes.
    assert (reencode codec raw_bytes = Returns out) as ->
      by (apply reencode_returns; eauto).
    reflexivity.
  - intros exc Ho. unfold to_jpeg_bytes, reencode. now rewrite Ho.
  - intros exc He. unfold to_jpeg_bytes. now rewrite He.
  - unfold to_jpeg_bytes.
    destruct (reencode codec raw_bytes) as [out|exc] eqn:E; [left | now right].
    now apply reencode_returns.
Qed.

End ImageNormalization.

(** ** The theorems at sample inputs *)

Section Samples.
Import PyStr PyStrFacts.

Lemma detect_category_priority_witness :
  detect_category_with lower "Bacterial leaf blight" "use aphid soap" = Bacterial
  /\ detect_category_with lower "Yellow leaves" "Water less often" = Insect.
Proof.
  split.
  - apply (proj1 (proj2 (detect_category_priority lower "Bacterial leaf blight"
                           "use aphid soap"))).
    exists "bacteria". split; [left|].
    exists "", "l leaf blight use aphid soap". reflexivity.
  - apply (proj1 (proj2 (proj2 (proj2 (detect_category_priority lower
                                         "Yellow leaves" "Water less often"))))).
    apply any_in_false. vm_compute. reflexivity.
Defined.

Lemma curated_products_single_category_witness :
  sulfur_entry ∈ curated_products CATALOG reversed_order "apply sulfur"
                   "Powdery mildew"
  /\ sulfur_entry ∈ catalog_get CATALOG "fungal"
  /\ sulfur_entry ∉ catalog_get CATALOG "insect".
Proof.
  assert (sulfur_entry ∈ curated_products CATALOG reversed_order "apply sulfur"
                           "Powdery mildew") as He
    by (apply (bool_decide_unpack _); vm_compute; exact I).
  split; [exact He|]. split.
  - exact (proj1 (curated_products_single_category CATALOG reversed_order
                    "apply sulfur" "Powdery mildew") sulfur_entry He).
  - apply (proj2 (proj2 (curated_products_single_category CATALOG reversed_order
                           "apply sulfur" "Powdery mildew"))
             sulfur_entry Insect He).
    vm_compute. discriminate.
Defined.

Lemma parse_response_errors_witness :
  parse_response SampleDecoder.loads "I cannot tell." =
    ErrorDict "Failed to parse the model response" "I cannot tell."
  /\ parse_response SampleDecoder.loads "Result: {healthy} done" =
    ErrorDict "Invalid JSON: Expecting value" "{healthy}".
Proof.
  split.
  - apply (proj1 (parse_response_errors SampleDecoder.loads "I cannot tell.")).
    left. apply find_absent. vm_compute. reflexivity.
  - apply (proj1 (proj2 (parse_response_errors SampleDecoder.loads
                           "Result: {healthy} done"))).
    + rewrite <- find_absent. vm_compute. discriminate.
    + rewrite <- rfind_absent. vm_compute. discriminate.
    + vm_compute. reflexivity.
Defined.

Example parse_response_reversed_braces :
  parse_response SampleDecoder.loads "} and {" =
  ErrorDict "Invalid JSON: Expecting value" "".
Proof. vm_compute. reflexivity. Qed.

Lemma parse_response_decodes_witness :
  parse_response SampleDecoder.loads sample_response = Decoded sample_analysis.
Proof.
  apply (proj1 (parse_response_decodes SampleDecoder.loads)
           "Here is the result: "
           (SampleDecoder.quoted "is_healthy" +:+ ": true, " +:+
            SampleDecoder.quoted "results" +:+ ": [], " +:+
            SampleDecoder.quoted "confidence" +:+ ": " +:+
            SampleDecoder.quoted "95%")
           " Thanks!" sample_analysis).
  vm_compute. reflexivity.
Defined.

Lemma summary_text_branches_witness :
  summary_text SampleDecoder.container_repr [("is_healthy", JBool true)] "tomato" =
    Returns "Your tomato plant appears healthy. Keep doing what you are doing."
  /\ summary_text SampleDecoder.container_repr nameless_analysis "tomato" =
    Returns "Detected issues: Unknown. Symptoms: yellow spots. Treatment: apply copper. Prevention: ."
  /\ summary_text SampleDecoder.container_repr [("results", JArr [])] "tomato" =
    Returns "Analysis inconclusive.".
Proof.
  split; [|split].
  - apply (proj1 (summary_text_branches SampleDecoder.container_repr
                    [("is_healthy", JBool true)] "tomato")).
    reflexivity.
  - apply (proj1 (proj2 (summary_text_branches SampleDecoder.container_repr
                           nameless_analysis "tomato"))
             eq_refl [nameless_finding]); [discriminate | reflexivity].
  - apply (proj1 (proj2 (proj2 (summary_text_branches
             SampleDecoder.container_repr [("results", JArr [])] "tomato"))));
      reflexivity.
Defined.

Lemma to_jpeg_bytes_fallback_witness :
  to_jpeg_bytes toy_codec [Byte.xff; Byte.x01] = [Byte.xff; Byte.xd8; Byte.x01]
  /\ to_jpeg_bytes toy_codec [Byte.x47; Byte.x49] = [Byte.x47; Byte.x49].
Proof.
  split.
  - apply (proj1 (to_jpeg_bytes_fallback toy_codec [Byte.xff; Byte.x01])
             [Byte.x01] [Byte.x01]); reflexivity.
  - apply (proj1 (proj2 (to_jpeg_bytes_fallback toy_codec [Byte.x47; Byte.x49]))
             "UnidentifiedImageError").
    reflexivity.
Defined.

End Samples.

(** * Further properties of the code *)

(** ** Case and argument order in the classifier and the extractor *)

Section CaseInsensitive.
Import PyStr PyStrFacts.

Lemma lower_ascii_idem (c : ascii) : lower_ascii (lower_ascii c) = lower_ascii c.
Proof. destruct c as [[] [] [] [] [] [] [] []]; reflexivity. Qed.

Lemma lower_idem (s : string) : lower (lower s) = lower s.
Proof.
  induction s as [|c s IH]; simpl; [reflexivity|].
  now rewrite lower_ascii_idem, IH.
Qed.

Lemma existsb_ext_in {A : Type} (f g : A -> bool) (l : list A) :
  (forall x, x ∈ l -> f x = g x) -> existsb f l = existsb g l.
Proof.
  induction l as [|x l IH]; intros H; simpl; [reflexivity|].
  rewrite (H x) by left. rewrite IH; [reflexivity|].
  intros y Hy. apply H. now right.
Qed.

Lemma any_in_swap (ws : list string) (a b : string) :
  (forall w, w ∈ ws -> no_space w = true) ->
  any_in ws (a +:+ " " +:+ b) = any_in ws (b +:+ " " +:+ a).
Proof.
  intros Hws. apply existsb_ext_in. intros w Hw.
  rewrite !contains_app_space by now apply Hws. apply orb_comm.
Qed.

(** The classifier does not care which of the two texts a keyword is
    in: swapping its arguments gives the same category. *)
Theorem detect_category_swap (disease_text treatment_text : string) :
  detect_category disease_text treatment_text =
  detect_category treatment_text disease_text.
Proof.
  unfold detect_category, scanned_text.
  rewrite (any_in_swap bacterial_words), (any_in_swap fungal_words),
    (any_in_swap insect_words); [reflexivity| | |];
    intros w Hw; apply keywords_no_space; set_solver.
Qed.

(** The classifier ignores the case of letters. *)
Theorem detect_category_ignores_case (disease_text treatment_text : string) :
  detect_category (lower disease_text) (lower treatment_text) =
  detect_category disease_text treatment_text.
Proof.
  unfold detect_category, scanned_text.
  now rewrite !or_empty_id, !lower_idem.
Qed.

(** Two iteration orders of the keyword set give the same actives, up
    to their order. *)
Theorem extract_actives_order_permutes (order1 order2 : list string)
    (text : string) :
  iteration_order order1 ACTIVE_KEYWORDS ->
  iteration_order order2 ACTIVE_KEYWORDS ->
  extract_actives order1 text ≡ₚ extract_actives order2 text.
Proof.
  intros [Hnd1 Hin1] [Hnd2 Hin2].
  rewrite !extract_actives_filter by assumption.
  apply NoDup_Permutation; [now apply NoDup_filter_bool..|].
  intros a. rewrite !elem_of_filter_bool, Hin1, Hin2. reflexivity.
Qed.

Lemma extract_actives_order_permutes_witness :
  extract_actives (catalog_order CATALOG) "sulfur, then copper" ≡ₚ
  extract_actives reversed_order "sulfur, then copper".
Proof.
  apply extract_actives_order_permutes.
  - apply catalog_order_iteration.
  - apply iteration_order_rev, catalog_order_iteration.
Defined.

(** The extractor ignores the case of letters, and a text that contains
    another text yields at least the actives of the text it contains. *)
Theorem extract_actives_monotone (order : list string) (text1 text2 : string) :
  iteration_order order ACTIVE_KEYWORDS ->
  occurs (lower text1) (lower text2) ->
  extract_actives order (lower text1) = extract_actives order text1
  /\ forall a, a ∈ extract_actives order text1 -> a ∈ extract_actives order text2.
Proof.
  intros [Hnd Hin] Hsub. split.
  - unfold extract_actives. now rewrite !or_empty_id, lower_idem.
  - intros a. rewrite !extract_actives_filter by assumption.
    rewrite !elem_of_filter_bool, !contains_occurs.
    intros [Ha Hocc]. split; [exact Ha|]. exact (occurs_trans _ _ _ Hocc Hsub).
Qed.

Lemma extract_actives_monotone_witness :
  "sulfur" ∈ extract_actives reversed_order "Use wettable sulfur weekly".
Proof.
  apply (extract_actives_monotone reversed_order "Wettable SULFUR"
           "Use wettable sulfur weekly").
  - apply iteration_order_rev, catalog_order_iteration.
  - exists "use ", " weekly". reflexivity.
  - apply (bool_decide_unpack _). vm_compute. exact I.
Defined.

End CaseInsensitive.

(** ** What the selector returns *)

Section SelectorExtras.
Import PyStr PyStrFacts.

Lemma collect_item_fold_eq (a : string) (items chosen : list CatalogEntry) :
  fold_left (collect_item a) items chosen =
  chosen ++ filter (fun e => active e = a) items.
Proof.
  revert chosen; induction items as [|item items IH]; intros chosen; simpl.
  - now rewrite filter_nil, List.app_nil_r.
  - rewrite IH. unfold collect_item. case_decide as Ha.
    + rewrite filter_cons_True by exact Ha. now rewrite <- List.app_assoc.
    + now rewrite filter_cons_False by exact Ha.
Qed.

Lemma collect_fold_eq (cl : list CatalogEntry) (actives : list string)
    (chosen : list CatalogEntry) :
  fold_left (collect_active cl) actives chosen =
  chosen ++ flat_map (fun a => filter (fun e => active e = a) cl) actives.
Proof.
  revert chosen; induction actives as [|a actives IH]; intros chosen; simpl.
  - now rewrite List.app_nil_r.
  - rewrite IH. unfold collect_active. rewrite collect_item_fold_eq.
    now rewrite <- List.app_assoc.
Qed.

(** The nested loop gathers, active by active, the entries with it. *)
Lemma collect_spec (cl : list CatalogEntry) (actives : list string) :
  collect cl actives =
  flat_map (fun a => filter (fun e => active e = a) cl) actives.
Proof. unfold collect. now rewrite collect_fold_eq. Qed.

Lemma elem_of_collect (cl : list CatalogEntry) (actives : list string)
    (e : CatalogEntry) :
  e ∈ collect cl actives <-> e ∈ cl /\ active e ∈ actives.
Proof.
  rewrite collect_spec, list_elem_of_In, in_flat_map. split.
  - intros (a & Ha & He). apply list_elem_of_In, list_elem_of_filter in He.
    destruct He as [<- He]. split; [exact He | now apply list_elem_of_In].
  - intros [He Ha]. exists (active e). split; [now apply list_elem_of_In|].
    apply list_elem_of_In, list_elem_of_filter. auto.
Qed.

Lemma collect_NoDup (cl : list CatalogEntry) (actives : list string) :
  NoDup cl -> NoDup actives -> NoDup (collect cl actives).
Proof.
  intros Hcl Hact. rewrite collect_spec.
  induction Hact as [|a actives Ha Hact IH]; simpl; [constructor|].
  apply NoDup_app. split; [now apply NoDup_filter|]. split; [|exact IH].
  intros e He Hin. apply list_elem_of_filter in He as [Hea _].
  rewrite <- collect_spec in Hin. apply elem_of_collect in Hin as [_ Hin].
  congruence.
Qed.

Lemma matching_length (cl : list CatalogEntry) (a : string) :
  NoDup (map active cl) ->
  (length (filter (fun e => active e = a) cl) <= 1)%nat.
Proof.
  induction cl as [|x cl IH]; simpl; [lia|]. intros Hnd.
  apply NoDup_cons in Hnd as [Hx Hnd]. specialize (IH Hnd).
  destruct (decide (active x = a)) as [Hxa|Hxa].
  - rewrite filter_cons_True by exact Hxa.
    assert (filter (fun e => active e = a) cl = []) as ->; [|simpl; lia].
    destruct (filter (fun e => active e = a) cl) as [|y l] eqn:E; [reflexivity|].
    assert (y ∈ filter (fun e => active e = a) cl) as Hy by (rewrite E; left).
    apply list_elem_of_filter in Hy as [Hya Hy]. exfalso. apply Hx.
    rewrite Hxa, <- Hya. apply list_elem_of_In, in_map, list_elem_of_In, Hy.
  - now rewrite filter_cons_False by exact Hxa.
Qed.

Lemma collect_length (cl : list CatalogEntry) (actives : list string) :
  NoDup (map active cl) -> (length (collect cl actives) <= length actives)%nat.
Proof.
  intros Hnd. rewrite collect_spec.
  induction actives as [|a actives IH]; simpl; [lia|].
  rewrite length_app. pose proof (matching_length cl a Hnd). lia.
Qed.

Lemma CATALOG_actives_NoDup (c : Category) :
  NoDup (map active (catalog_get CATALOG (category_key c))).
Proof. destruct c; apply (bool_decide_unpack _); vm_compute; exact I. Qed.

Lemma extract_actives_NoDup (order : list string) (text : string) :
  iteration_order order ACTIVE_KEYWORDS -> NoDup (extract_actives order text).
Proof.
  intros [Hnd _]. rewrite extract_actives_filter by exact Hnd.
  now apply NoDup_filter_bool.
Qed.

Lemma elem_of_extract_actives (order : list string) (text a : string) :
  iteration_order order ACTIVE_KEYWORDS ->
  a ∈ extract_actives order text <->
  a ∈ ACTIVE_KEYWORDS /\ occurs a (lower text).
Proof.
  intros [Hnd Hin]. rewrite extract_actives_filter by exact Hnd.
  now rewrite elem_of_filter_bool, Hin, contains_occurs.
Qed.

Lemma catalog_actives_known (c : Category) (e : CatalogEntry) :
  e ∈ catalog_get CATALOG (category_key c) -> active e ∈ ACTIVE_KEYWORDS.
Proof.
  intros He. unfold ACTIVE_KEYWORDS, keyword_set. rewrite elem_of_list_to_set.
  assert (active e ∈ map active (catalog_get CATALOG (category_key c))) as Ha
    by (apply list_elem_of_In, in_map, list_elem_of_In, He).
  apply list_elem_of_In in Ha. apply list_elem_of_In.
  destruct c; vm_compute in Ha; vm_compute; tauto.
Qed.

(** What is chosen before the cut to four entries. *)
Lemma curated_products_shape (order : list string)
    (recommendation disease_name : string) (item : CatalogEntry)
    (cl : list CatalogEntry) (a : string) (actives : list string) :
  catalog_get CATALOG (category_key (detect_category disease_name recommendation))
    = item :: cl ->
  extract_actives order recommendation = a :: actives ->
  exists extra,
    curated_products CATALOG order recommendation disease_name =
      take 4 (collect (item :: cl) (a :: actives) ++ extra)
    /\ (forall e, e ∈ extra ->
          e ∈ item :: cl /\ e ∉ collect (item :: cl) (a :: actives))
    /\ NoDup extra
    /\ ((2 <= length (collect (item :: cl) (a :: actives)))%nat -> extra = []).
Proof.
  intros Ecl Eact. unfold curated_products. rewrite Ecl, Eact.
  pose proof (CATALOG_NoDup (detect_category disease_name recommendation)) as Hnd.
  rewrite Ecl in Hnd.
  destruct (Nat.ltb_spec (length (collect (item :: cl) (a :: actives))) 2)
    as [Hlt|Hge].
  - rewrite (backfill_spec _ _ Hnd Hlt).
    eexists. split; [reflexivity|]. split; [|split].
    + intros e He. apply subseteq_take in He.
      apply list_elem_of_filter in He. tauto.
    + refine (sublist_NoDup _ _ _ (sublist_take _ _)). now apply NoDup_filter.
    + lia.
  - exists []. rewrite List.app_nil_r. split; [reflexivity|].
    split; [intros e He; now apply elem_of_nil in He|].
    split; [constructor | reflexivity].
Qed.

(** The selector never returns an entry twice. *)
Theorem curated_products_no_repeat (order : list string)
    (recommendation disease_name : string) :
  iteration_order order ACTIVE_KEYWORDS ->
  NoDup (curated_products CATALOG order recommendation disease_name).
Proof.
  intros Hord.
  pose proof (CATALOG_NoDup (detect_category disease_name recommendation)) as Hnd.
  destruct (catalog_get CATALOG (category_key
              (detect_category disease_name recommendation)))
    as [|item cl] eqn:Ecl.
  { rewrite curated_products_empty by exact Ecl. constructor. }
  pose proof (extract_actives_NoDup order recommendation Hord) as Hact.
  destruct (extract_actives order recommendation) as [|a actives] eqn:Eact.
  { unfold curated_products. rewrite Ecl, Eact.
    exact (sublist_NoDup _ _ Hnd (sublist_take _ _)). }
  destruct (curated_products_shape order recommendation disease_name
              item cl a actives Ecl Eact) as (extra & -> & Hextra & Hnde & _).
  refine (sublist_NoDup _ _ _ (sublist_take _ _)).
  apply NoDup_app. split; [now apply collect_NoDup|]. split; [|exact Hnde].
  intros e He Hin. now apply Hextra in Hin.
Qed.

Lemma curated_products_no_repeat_witness :
  NoDup (curated_products CATALOG reversed_order
           "Rotate sulfur with mancozeb and copper" "Leaf rust").
Proof.
  apply curated_products_no_repeat.
  apply iteration_order_rev, catalog_order_iteration.
Defined.

(** When the recommendation names no known active, the selector returns
    the first two entries of the resolved category. *)
Theorem curated_products_default (order : list string)
    (recommendation disease_name : string) :
  iteration_order order ACTIVE_KEYWORDS ->
  (forall a, a ∈ ACTIVE_KEYWORDS -> ~ occurs a (lower recommendation)) ->
  curated_products CATALOG order recommendation disease_name =
  take 2 (catalog_get CATALOG
            (category_key (detect_category disease_name recommendation))).
Proof.
  intros Hord Hnone.
  assert (extract_actives order recommendation = []) as Eact.
  { destruct (extract_actives order recommendation) as [|a l] eqn:E;
      [reflexivity|].
    assert (a ∈ extract_actives order recommendation) as Ha by (rewrite E; left).
    apply elem_of_extract_actives in Ha as [Ha Hocc]; [|exact Hord].
    destruct (Hnone a Ha Hocc). }
  unfold curated_products. rewrite Eact.
  now destruct (catalog_get CATALOG _).
Qed.

(** When at most four known actives occur in the recommendation, every
    entry of the resolved category whose active occurs in it is
    returned. *)
Theorem curated_products_named_included (order : list string)
    (recommendation disease_name : string) (e : CatalogEntry) :
  iteration_order order ACTIVE_KEYWORDS ->
  (length (extract_actives order recommendation) <= 4)%nat ->
  e ∈ catalog_get CATALOG
        (category_key (detect_category disease_name recommendation)) ->
  occurs (active e) (lower recommendation) ->
  e ∈ curated_products CATALOG order recommendation disease_name.
Proof.
  intros Hord Hlen He Hocc.
  assert (active e ∈ extract_actives order recommendation) as Hact.
  { apply elem_of_extract_actives; [exact Hord|]. split; [|exact Hocc].
    now apply (catalog_actives_known _ _ He). }
  pose proof (CATALOG_actives_NoDup (detect_category disease_name recommendation))
    as Hnda.
  destruct (catalog_get CATALOG (category_key
              (detect_category disease_name recommendation)))
    as [|item cl] eqn:Ecl; [now apply elem_of_nil in He|].
  destruct (extract_actives order recommendation) as [|a actives] eqn:Eact;
    [now apply elem_of_nil in Hact|].
  destruct (curated_products_shape order recommendation disease_name
              item cl a actives Ecl Eact) as (extra & -> & _).
  pose proof (collect_length (item :: cl) (a :: actives) Hnda) as Hcl.
  rewrite take_app_ge by lia.
  apply elem_of_app. left. apply elem_of_collect. auto.
Qed.

(** When two different entries of the resolved category have their
    active in the recommendation, nothing is backfilled: every entry
    returned has its active in the recommendation. *)
Theorem curated_products_only_named (order : list string)
    (recommendation disease_name : string) (e1 e2 : CatalogEntry) :
  iteration_order order ACTIVE_KEYWORDS ->
  e1 <> e2 ->
  e1 ∈ catalog_get CATALOG
         (category_key (detect_category disease_name recommendation)) ->
  e2 ∈ catalog_get CATALOG
         (category_key (detect_category disease_name recommendation)) ->
  occurs (active e1) (lower recommendation) ->
  occurs (active e2) (lower recommendation) ->
  forall e, e ∈ curated_products CATALOG order recommendation disease_name ->
            occurs (active e) (lower recommendation).
Proof.
  intros Hord Hne He1 He2 Ho1 Ho2 e He.
  assert (forall x, x ∈ catalog_get CATALOG (category_key
              (detect_category disease_name recommendation)) ->
            occurs (active x) (lower recommendation) ->
            active x ∈ extract_actives order recommendation) as Hnamed.
  { intros x Hx Hocc. apply elem_of_extract_actives; [exact Hord|].
    split; [now apply (catalog_actives_known _ _ Hx) | exact Hocc]. }
  pose proof (Hnamed e1 He1 Ho1) as Ha1. pose proof (Hnamed e2 He2 Ho2) as Ha2.
  destruct (catalog_get CATALOG (category_key
              (detect_category disease_name recommendation)))
    as [|item cl] eqn:Ecl; [now apply elem_of_nil in He1|].
  destruct (extract_actives order recommendation) as [|a actives] eqn:Eact;
    [now apply elem_of_nil in Ha1|].
  destruct (curated_products_shape order recommendation disease_name
              item cl a actives Ecl Eact) as (extra & E & _ & _ & Hfull).
  assert (e1 ∈ collect (item :: cl) (a :: actives)) as Hc1
    by (apply elem_of_collect; auto).
  assert (e2 ∈ collect (item :: cl) (a :: actives)) as Hc2
    by (apply elem_of_collect; auto).
  assert (2 <= length (collect (item :: cl) (a :: actives)))%nat as Hlen.
  { destruct (collect (item :: cl) (a :: actives)) as [|x [|y l]]; simpl; try lia.
    - now apply elem_of_nil in Hc1.
    - apply list_elem_of_singleton in Hc1, Hc2. congruence. }
  rewrite E, (Hfull Hlen), List.app_nil_r in He.
  apply subseteq_take, elem_of_collect in He as [_ He].
  rewrite <- Eact in He.
  now apply elem_of_extract_actives in He as [_ He].
Qed.

End SelectorExtras.

(** *** Bounds and content of the selection *)

Section SelectorBounds.

Lemma named_nothing_listed (actives : list string) :
  flat_map (fun a => filter (fun e : CatalogEntry => active e = a) []) actives
  = [].
Proof. induction actives as [|a actives IH]; simpl; [reflexivity | exact IH]. Qed.

(** C1 (amended): the selector returns at most four entries, and at
    least two or, when the category lists fewer than two, as many as
    the category lists.  Without a known active in the recommendation
    it returns the first two entries of the list.  Otherwise it takes,
    active by active in extractor order, the entries of the list with
    that active: with two or more of them it returns the first four;
    with fewer it appends the entries not yet chosen, in catalog order,
    until two are reached or the list is exhausted. *)
Theorem curated_products_bounds (order : list string)
    (recommendation disease_name : string) :
  let cl := catalog_get CATALOG
              (category_key (detect_category disease_name recommendation)) in
  let actives := extract_actives order recommendation in
  let named := flat_map (fun a => filter (fun e => active e = a) cl) actives in
  let r := curated_products CATALOG order recommendation disease_name in
  (length r <= 4)%nat
  /\ (Nat.min 2 (length cl) <= length r)%nat
  /\ (actives = [] -> r = take 2 cl)
  /\ (actives <> [] -> (2 <= length named)%nat -> r = take 4 named)
  /\ (actives <> [] -> (length named < 2)%nat ->
      r = named ++ take (2 - length named) (filter (fun e => e ∉ named) cl)).
Proof.
  intros cl actives named r.
  split; [apply curated_products_length_le|].
  split; [apply curated_products_length_ge, CATALOG_NoDup|].
  pose proof (CATALOG_NoDup (detect_category disease_name recommendation))
    as Hnd. fold cl in Hnd.
  assert (collect cl actives = named) as Hnamed by apply collect_spec.
  assert (cl = [] -> named = []) as Hempty
    by (intros E; unfold named; rewrite E; apply named_nothing_listed).
  assert (r = match cl with
              | [] => []
              | _ :: _ =>
                  match actives with
                  | _ :: _ =>
                      take 4 (if (length (collect cl actives) <? 2)%nat
                              then backfill cl (collect cl actives)
                              else collect cl actives)
                  | [] => take 2 cl
                  end
              end) as Hr by reflexivity.
  rewrite Hnamed in Hr. clearbody cl actives named r. subst r.
  destruct cl as [|item cl'].
  - rewrite (Hempty eq_refl). repeat split; reflexivity.
  - destruct actives as [|a actives'].
    + split; [reflexivity|]. split; intros Hne; now destruct Hne.
    + split; [discriminate|]. split.
      * intros _ Hlen.
        destruct (Nat.ltb_spec (length named) 2); [lia | reflexivity].
      * intros _ Hlen.
        destruct (Nat.ltb_spec (length named) 2); [|lia].
        rewrite (backfill_spec _ _ Hnd Hlen). apply take_ge.
        rewrite length_app, length_take. lia.
Qed.

Lemma curated_products_bounds_witness :
  curated_products CATALOG reversed_order "Apply sulfur weekly" "Powdery mildew"
  = [sulfur_entry; chlorothalonil_entry]
  /\ curated_products CATALOG reversed_order "Sulfur or mancozeb sprays"
       "Powdery mildew" = [sulfur_entry; mancozeb_entry].
Proof.
  split.
  - rewrite (proj2 (proj2 (proj2 (proj2 (curated_products_bounds reversed_order
               "Apply sulfur weekly" "Powdery mildew"))))).
    + vm_compute. reflexivity.
    + vm_compute. discriminate.
    + apply Nat.ltb_lt. vm_compute. reflexivity.
  - rewrite (proj1 (proj2 (proj2 (proj2 (curated_products_bounds reversed_order
               "Sulfur or mancozeb sprays" "Powdery mildew"))))).
    + vm_compute. reflexivity.
    + vm_compute. discriminate.
    + apply Nat.leb_le. vm_compute. reflexivity.
Defined.

End SelectorBounds.

(** ** Products gathered across findings *)

Section Aggregation.

Lemma add_product_tracked (st : gset string * list CatalogEntry)
    (p : CatalogEntry) :
  titles_tracked st -> titles_tracked (add_product st p).
Proof.
  destruct st as [seen items]. intros [Hnd Hseen]. unfold add_product.
  case_bool_decide as Hp; [now split|]. unfold titles_tracked. simpl in *.
  rewrite map_app. simpl. split.
  - apply NoDup_app. split; [exact Hnd|]. split; [|apply NoDup_singleton].
    intros t Ht Ht'. apply list_elem_of_singleton in Ht' as ->.
    apply Hp, Hseen, Ht.
  - intros t. rewrite elem_of_union, elem_of_singleton, elem_of_app,
      list_elem_of_singleton, Hseen. tauto.
Qed.

Lemma add_products_tracked (ps : list CatalogEntry)
    (st : gset string * list CatalogEntry) :
  titles_tracked st -> titles_tracked (fold_left add_product ps st).
Proof.
  revert st; induction ps as [|p ps IH]; intros st H; simpl; [exact H|].
  now apply IH, add_product_tracked.
Qed.

Lemma add_product_items (st : gset string * list CatalogEntry)
    (p : CatalogEntry) :
  (add_product st p).2 = st.2 \/ (add_product st p).2 = st.2 ++ [p].
Proof.
  destruct st as [seen items]. unfold add_product.
  case_bool_decide; simpl; auto.
Qed.

Lemma add_products_elem (ps : list CatalogEntry)
    (st : gset string * list CatalogEntry) (e : CatalogEntry) :
  e ∈ (fold_left add_product ps st).2 -> e ∈ st.2 \/ e ∈ ps.
Proof.
  revert st; induction ps as [|p ps IH]; intros st; simpl; [auto|].
  intros H. apply IH in H as [H|H]; [|right; now right].
  destruct (add_product_items st p) as [E|E]; rewrite E in H; [now left|].
  apply elem_of_app in H as [H|H]; [now left|].
  apply list_elem_of_singleton in H as ->. right; left.
Qed.

Lemma add_products_keep (ps : list CatalogEntry)
    (st : gset string * list CatalogEntry) (e : CatalogEntry) :
  e ∈ st.2 -> e ∈ (fold_left add_product ps st).2.
Proof.
  revert st; induction ps as [|p ps IH]; intros st H; simpl; [exact H|].
  apply IH. destruct (add_product_items st p) as [E|E]; rewrite E;
    [exact H | apply elem_of_app; now left].
Qed.

Lemma add_products_length (ps : list CatalogEntry)
    (st : gset string * list CatalogEntry) :
  (length (fold_left add_product ps st).2 <= length st.2 + length ps)%nat.
Proof.
  revert st; induction ps as [|p ps IH]; intros st; simpl; [lia|].
  specialize (IH (add_product st p)).
  destruct (add_product_items st p) as [E|E]; rewrite E in IH;
    [|rewrite length_app in IH; simpl in IH]; lia.
Qed.

(** Every product offered has its title among the items kept. *)
Lemma add_products_title (ps : list CatalogEntry)
    (st : gset string * list CatalogEntry) (p : CatalogEntry) :
  titles_tracked st -> p ∈ ps ->
  exists q, q ∈ (fold_left add_product ps st).2 /\ title q = title p.
Proof.
  revert st; induction ps as [|x ps IH]; intros st Hst Hp;
    [now apply elem_of_nil in Hp|].
  simpl. apply elem_of_cons in Hp as [->|Hp];
    [|apply IH; [now apply add_product_tracked | exact Hp]].
  assert (exists q, q ∈ (add_product st x).2 /\ title q = title x)
    as (q & Hq & Et).
  { destruct st as [seen items]. destruct Hst as [_ Hseen]. unfold add_product.
    case_bool_decide as Hx; simpl in *.
    - apply Hseen, list_elem_of_In, in_map_iff in Hx as (q & Et & Hq).
      exists q. split; [now apply list_elem_of_In | exact Et].
    - exists x. split; [apply elem_of_app; right; left | reflexivity]. }
  exists q. split; [now apply add_products_keep | exact Et].
Qed.

Variable C : Catalog.
Variable order : list string.

Lemma curated_products_of_returns (r : json) (ps : list CatalogEntry) :
  curated_products_of C order r = Returns ps ->
  exists d dis rec,
    r = JObj d
    /\ text_arg (default (JStr "") (dict_get d "name")) = Returns dis
    /\ text_arg (default (JStr "") (dict_get d "treatment")) = Returns rec
    /\ ps = curated_products C order rec dis.
Proof.
  destruct r as [| | | | |d]; unfold curated_products_of; try discriminate.
  unfold mbind, outcome_bind.
  destruct (text_arg (default (JStr "") (dict_get d "name"))) as [dis|] eqn:Ed;
    [|discriminate].
  destruct (text_arg (default (JStr "") (dict_get d "treatment"))) as [rec|]
    eqn:Er; [|discriminate].
  intros [= <-]. exists d, dis, rec. auto.
Qed.

Lemma curated_products_of_length (r : json) (ps : list CatalogEntry) :
  curated_products_of C order r = Returns ps -> (length ps <= 4)%nat.
Proof.
  intros H. apply curated_products_of_returns in H as (d & dis & rec & _ & _ & _ & ->).
  apply curated_products_length_le.
Qed.

Lemma catalog_get_entries (k : string) (e : CatalogEntry) :
  e ∈ catalog_get C k -> e ∈ catalog_entries C.
Proof.
  unfold catalog_entries. induction C as [|[k' group] C' IH]; simpl.
  - intros He. now apply elem_of_nil in He.
  - case_decide; intros He; apply elem_of_app; [now left | right; auto].
Qed.

Lemma curated_products_of_entries (r : json) (ps : list CatalogEntry)
    (e : CatalogEntry) :
  curated_products_of C order r = Returns ps -> e ∈ ps ->
  e ∈ catalog_entries C.
Proof.
  intros H He.
  apply curated_products_of_returns in H as (d & dis & rec & _ & _ & _ & ->).
  apply curated_products_subset in He. now apply catalog_get_entries in He.
Qed.

Lemma recommended_loop_tracked (results : list json)
    (st st' : gset string * list CatalogEntry) :
  recommended_loop C order results st = Returns st' ->
  titles_tracked st -> titles_tracked st'.
Proof.
  revert st; induction results as [|r results IH]; intros st; simpl.
  - now intros [= <-].
  - destruct (curated_products_of C order r) as [ps|]; [|discriminate]. simpl.
    intros H Hst. apply (IH _ H). now apply add_products_tracked.
Qed.

Lemma recommended_loop_keep (results : list json)
    (st st' : gset string * list CatalogEntry) (e : CatalogEntry) :
  recommended_loop C order results st = Returns st' -> e ∈ st.2 -> e ∈ st'.2.
Proof.
  revert st; induction results as [|r results IH]; intros st; simpl.
  - now intros [= <-].
  - destruct (curated_products_of C order r) as [ps|]; [|discriminate]. simpl.
    intros H He. apply (IH _ H). now apply add_products_keep.
Qed.

Lemma recommended_loop_sound (results : list json)
    (st st' : gset string * list CatalogEntry) (e : CatalogEntry) :
  recommended_loop C order results st = Returns st' -> e ∈ st'.2 ->
  e ∈ st.2 \/
  exists r ps, r ∈ results /\ curated_products_of C order r = Returns ps /\ e ∈ ps.
Proof.
  revert st; induction results as [|r results IH]; intros st; simpl.
  - intros [= <-]. auto.
  - destruct (curated_products_of C order r) as [ps|] eqn:E; [|discriminate].
    simpl. intros H He. destruct (IH _ H He) as [Hin|(r' & ps' & Hr & E' & Hin)].
    + apply add_products_elem in Hin as [Hin|Hin]; [now left|].
      right. exists r, ps. split; [left | auto].
    + right. exists r', ps'. split; [now right | auto].
Qed.

Lemma recommended_loop_title (results : list json)
    (st st' : gset string * list CatalogEntry) (r : json)
    (ps : list CatalogEntry) (p : CatalogEntry) :
  recommended_loop C order results st = Returns st' -> titles_tracked st ->
  r ∈ results -> curated_products_of C order r = Returns ps -> p ∈ ps ->
  exists q, q ∈ st'.2 /\ title q = title p.
Proof.
  revert st; induction results as [|x results IH]; intros st; simpl.
  - intros _ _ Hr. now apply elem_of_nil in Hr.
  - destruct (curated_products_of C order x) as [xs|] eqn:E; [|discriminate].
    simpl. intros H Hst Hr Hps Hp. apply elem_of_cons in Hr as [->|Hr].
    + rewrite E in Hps. injection Hps as ->.
      destruct (add_products_title ps st p Hst Hp) as (q & Hq & Et).
      exists q. split; [exact (recommended_loop_keep _ _ _ _ H Hq) | exact Et].
    + apply (IH _ H); auto using add_products_tracked.
Qed.

Lemma recommended_loop_length (results : list json)
    (st st' : gset string * list CatalogEntry) :
  recommended_loop C order results st = Returns st' ->
  (length st'.2 <= length st.2 + 4 * length results)%nat.
Proof.
  revert st; induction results as [|r results IH]; intros st; simpl.
  - intros [= <-]. lia.
  - destruct (curated_products_of C order r) as [ps|] eqn:E; [|discriminate].
    simpl. intros H. apply IH in H.
    pose proof (add_products_length ps st).
    pose proof (curated_products_of_length r ps E). lia.
Qed.

Lemma recommended_items_loop (results : list json) (items : list CatalogEntry) :
  recommended_items C order results = Returns items ->
  exists seen, recommended_loop C order results (∅, []) = Returns (seen, items).
Proof.
  unfold recommended_items.
  destruct (recommended_loop C order results (∅, [])) as [[seen its]|];
    [|discriminate].
  simpl. intros [= <-]. eauto.
Qed.

Lemma titles_tracked_start : titles_tracked (∅, []).
Proof. split; simpl; [constructor | set_solver]. Qed.

(** The products gathered across the findings have titles that differ
    from one another, each comes from the selection made for one of the
    findings, each product selected for a finding has its title among
    them, and there are at most four per finding. *)
Theorem recommended_items_distinct_titles (results : list json)
    (items : list CatalogEntry) :
  recommended_items C order results = Returns items ->
  NoDup (map title items)
  /\ (forall e, e ∈ items ->
        exists r ps, r ∈ results /\
          curated_products_of C order r = Returns ps /\ e ∈ ps)
  /\ (forall r ps p, r ∈ results ->
        curated_products_of C order r = Returns ps -> p ∈ ps ->
        title p ∈ map title items)
  /\ (length items <= 4 * length results)%nat.
Proof.
  intros H. apply recommended_items_loop in H as [seen H].
  split; [|split; [|split]].
  - exact (proj1 (recommended_loop_tracked _ _ _ H titles_tracked_start)).
  - intros e He. destruct (recommended_loop_sound _ _ _ e H He) as [Hin|Hin];
      [now apply elem_of_nil in Hin | exact Hin].
  - intros r ps p Hr Hps Hp.
    destruct (recommended_loop_title _ _ _ r ps p H titles_tracked_start Hr Hps Hp)
      as (q & Hq & <-).
    apply list_elem_of_In, in_map, list_elem_of_In, Hq.
  - apply recommended_loop_length in H. simpl in H. lia.
Qed.

Lemma text_arg_raises (v : json) (exc : string) :
  text_arg v = Raises exc -> exc = "AttributeError".
Proof.
  destruct v as [|b|n|s|items|fields]; simpl; try discriminate.
  - destruct b; [now intros [= <-] | discriminate].
  - destruct (n =? 0); [discriminate | now intros [= <-]].
  - destruct items; [discriminate | now intros [= <-]].
  - destruct fields; [discriminate | now intros [= <-]].
Qed.

Lemma text_arg_truthy (v : json) :
  truthy v = true -> (forall s, v <> JStr s) ->
  text_arg v = Raises "AttributeError".
Proof.
  intros Ht Hs. destruct v as [|b|n|s|items|fields]; simpl in *;
    try discriminate; try (now rewrite Ht); try (now destruct (Hs s)).
Qed.

Lemma text_arg_falsy (v : json) : truthy v = false -> text_arg v = Returns "".
Proof.
  intros Ht. destruct v as [|b|n|s|items|fields]; simpl in *;
    try reflexivity; try (now rewrite Ht).
  apply negb_false_iff, bool_decide_eq_true in Ht. now subst s.
Qed.

Lemma curated_products_of_raises (r : json) (exc : string) :
  curated_products_of C order r = Raises exc -> exc = "AttributeError".
Proof.
  destruct r as [| | | | |d]; unfold curated_products_of;
    try (now intros [= <-]).
  unfold mbind, outcome_bind.
  destruct (text_arg (default (JStr "") (dict_get d "name"))) as [dis|e1] eqn:Ed;
    [|intros [= <-]; exact (text_arg_raises _ _ Ed)].
  destruct (text_arg (default (JStr "") (dict_get d "treatment"))) as [rec|e2]
    eqn:Er; [discriminate|].
  intros [= <-]. exact (text_arg_raises _ _ Er).
Qed.

Lemma recommended_loop_raises (results : list json)
    (st : gset string * list CatalogEntry) :
  (exists r, r ∈ results /\ curated_products_of C order r = Raises "AttributeError") ->
  recommended_loop C order results st = Raises "AttributeError".
Proof.
  intros (r & Hr & Hraise). revert st.
  induction results as [|x results IH]; intros st;
    [now apply elem_of_nil in Hr|].
  cbn [recommended_loop]. unfold mbind, outcome_bind.
  destruct (curated_products_of C order x) as [ps|exc] eqn:E.
  - apply elem_of_cons in Hr as [->|Hr]; [congruence|]. now apply IH.
  - now rewrite (curated_products_of_raises _ _ E).
Qed.

(** The gathering returns exactly when the selection returns for every
    finding.  A finding that is no object, or whose name or treatment
    is a true value other than a text, raises [AttributeError], and one
    such finding aborts the whole gathering with that error.  A finding
    that is an object whose name and treatment are each a text, a false
    value such as null, or missing never raises: a false value and a
    missing key count as the empty text. *)
Theorem recommended_items_returns (results : list json) :
  ((exists items, recommended_items C order results = Returns items) <->
   (forall r, r ∈ results -> exists ps, curated_products_of C order r = Returns ps))
  /\ (forall d,
        (forall k v, k ∈ ["treatment"; "name"] -> dict_get d k = Some v ->
                     v = JNull \/ exists s, v = JStr s) ->
        exists ps, curated_products_of C order (JObj d) = Returns ps)
  /\ (forall r, (forall d, r <> JObj d) ->
        curated_products_of C order r = Raises "AttributeError")
  /\ (forall d k v, k ∈ ["treatment"; "name"] -> dict_get d k = Some v ->
        truthy v = true -> (forall s, v <> JStr s) ->
        curated_products_of C order (JObj d) = Raises "AttributeError")
  /\ (forall d dis rec,
        (dict_get d "name" = Some (JStr dis)
         \/ (dis = "" /\ (dict_get d "name" = None
                          \/ exists v, dict_get d "name" = Some v
                                       /\ truthy v = false))) ->
        (dict_get d "treatment" = Some (JStr rec)
         \/ (rec = "" /\ (dict_get d "treatment" = None
                          \/ exists v, dict_get d "treatment" = Some v
                                       /\ truthy v = false))) ->
        curated_products_of C order (JObj d) =
        Returns (curated_products C order rec dis))
  /\ ((exists r, r ∈ results /\
                 curated_products_of C order r = Raises "AttributeError") ->
      recommended_items C order results = Raises "AttributeError").
Proof.
  split; [|split; [|split; [|split; [|split]]]].
  - unfold recommended_items. generalize (∅ : gset string, [] : list CatalogEntry).
    induction results as [|r results IH]; intros st; simpl.
    + split; [intros _ r Hr; now apply elem_of_nil in Hr | eauto].
    + destruct (curated_products_of C order r) as [ps|exc] eqn:E; simpl.
      * rewrite IH. split.
        -- intros H x Hx. apply elem_of_cons in Hx as [->|Hx]; eauto.
        -- intros H x Hx. apply H. now right.
      * split; [intros [items Hi]; discriminate|].
        intros H. destruct (H r) as [ps Hps]; [left|]. congruence.
  - intros d Hd. simpl.
    assert (forall k, k ∈ ["treatment"; "name"] ->
              exists s, text_arg (default (JStr "") (dict_get d k)) = Returns s)
      as Htxt.
    { intros k Hk. destruct (dict_get d k) as [v|] eqn:E; simpl; [|eauto].
      destruct (Hd k v Hk E) as [->|[s ->]]; simpl; eauto. }
    destruct (Htxt "name") as [dis ->]; [set_solver|].
    destruct (Htxt "treatment") as [rec ->]; [set_solver|]. simpl. eauto.
  - intros r Hr. destruct r as [| | | | |d]; try reflexivity.
    now destruct (Hr d).
  - intros d k v Hk Hv Ht Hs.
    pose proof (text_arg_truthy v Ht Hs) as Hraise.
    unfold curated_products_of, mbind, outcome_bind.
    apply elem_of_cons in Hk as [->|Hk].
    + rewrite Hv. simpl default. rewrite Hraise.
      destruct (text_arg (default (JStr "") (dict_get d "name"))) as [dis|exc]
        eqn:Ed; [reflexivity|].
      now rewrite (text_arg_raises _ _ Ed).
    + apply list_elem_of_singleton in Hk as ->. rewrite Hv. simpl default.
      now rewrite Hraise.
  - intros d dis rec Hname Htreat.
    assert (forall k s,
              dict_get d k = Some (JStr s)
              \/ (s = "" /\ (dict_get d k = None
                             \/ exists v, dict_get d k = Some v
                                          /\ truthy v = false)) ->
              text_arg (default (JStr "") (dict_get d k)) = Returns s) as Htxt.
    { intros k s [E|[-> [E|(v & E & Hv)]]]; rewrite E; simpl default;
        [reflexivity | reflexivity | now apply text_arg_falsy]. }
    unfold curated_products_of, mbind, outcome_bind.
    now rewrite (Htxt "name" dis Hname), (Htxt "treatment" rec Htreat).
  - intros Hraise. unfold recommended_items.
    now rewrite (recommended_loop_raises _ _ Hraise).
Qed.

End Aggregation.

Section CuratedAggregation.

Lemma NoDup_map_inj {A B : Type} (f : A -> B) (l : list A) (x y : A) :
  NoDup (map f l) -> x ∈ l -> y ∈ l -> f x = f y -> x = y.
Proof.
  induction l as [|z l IH]; simpl; intros Hnd Hx Hy E;
    [now apply elem_of_nil in Hx|].
  apply NoDup_cons in Hnd as [Hz Hnd].
  assert (forall u, u ∈ l -> f u ∈ map f l) as Hmap
    by (intros u Hu; apply list_elem_of_In, in_map, list_elem_of_In, Hu).
  apply elem_of_cons in Hx as [->|Hx]; apply elem_of_cons in Hy as [->|Hy];
    auto.
  - destruct Hz. rewrite E. auto.
  - destruct Hz. rewrite <- E. auto.
Qed.

Lemma NoDup_map_NoDup {A B : Type} (f : A -> B) (l : list A) :
  NoDup (map f l) -> NoDup l.
Proof.
  induction l as [|z l IH]; simpl; intros Hnd; [constructor|].
  apply NoDup_cons in Hnd as [Hz Hnd]. constructor; [|auto].
  intros Hin. apply Hz, list_elem_of_In, in_map, list_elem_of_In, Hin.
Qed.

(** The curated catalog gives every entry a title of its own. *)
Lemma CATALOG_titles_NoDup : NoDup (map title (catalog_entries CATALOG)).
Proof. apply (bool_decide_unpack _). vm_compute. exact I. Qed.

(** On the curated catalog the products gathered are exactly the
    products selected for the findings, each once, and there are never
    more than the eleven entries of the catalog. *)
Theorem recommended_items_curated (order : list string) (results : list json)
    (items : list CatalogEntry) :
  recommended_items CATALOG order results = Returns items ->
  (forall p, p ∈ items <->
     exists r ps, r ∈ results /\
       curated_products_of CATALOG order r = Returns ps /\ p ∈ ps)
  /\ NoDup items
  /\ (length items <= 11)%nat.
Proof.
  intros H. apply recommended_items_loop in H as [seen H].
  pose proof (recommended_loop_tracked _ _ _ _ _ H titles_tracked_start)
    as [Hnd _]. simpl in Hnd.
  assert (forall e, e ∈ items ->
            exists r ps, r ∈ results /\
              curated_products_of CATALOG order r = Returns ps /\ e ∈ ps)
    as Hsound.
  { intros e He.
    destruct (recommended_loop_sound _ _ _ _ _ e H He) as [Hin|Hin];
      [now apply elem_of_nil in Hin | exact Hin]. }
  assert (forall e, e ∈ items -> e ∈ catalog_entries CATALOG) as Hsub.
  { intros e He. destruct (Hsound e He) as (r & ps & _ & Hps & Hin).
    exact (curated_products_of_entries _ _ _ _ _ Hps Hin). }
  split; [|split].
  - intros p. split; [apply Hsound|]. intros (r & ps & Hr & Hps & Hp).
    destruct (recommended_loop_title _ _ _ _ _ r ps p H titles_tracked_start
                Hr Hps Hp) as (q & Hq & Et).
    simpl in Hq.
    rewrite <- (NoDup_map_inj title _ q p CATALOG_titles_NoDup); auto.
    exact (curated_products_of_entries _ _ _ _ _ Hps Hp).
  - exact (NoDup_map_NoDup title _ Hnd).
  - rewrite <- (length_map title items).
    change 11%nat with (length (map title (catalog_entries CATALOG))).
    apply submseteq_length, NoDup_submseteq; [exact Hnd|].
    intros t Ht. apply list_elem_of_In, in_map_iff in Ht as (e & <- & He).
    apply list_elem_of_In, in_map, list_elem_of_In, Hsub, list_elem_of_In, He.
Qed.

End CuratedAggregation.

(** ** Prose around the response object *)

(** What stands before the first opening brace and after the last
    closing brace has no effect on the result. *)
Theorem parse_response_ignores_prose (json_loads : string -> json + string)
    (a m b : string) :
  absent "{" a -> absent "}" b ->
  parse_response json_loads (a +:+ "{" +:+ m +:+ "}" +:+ b) =
  parse_response json_loads ("{" +:+ m +:+ "}").
Proof.
  intros Ha Hb. rewrite (parse_response_span json_loads a m b Ha Hb).
  pose proof (parse_response_span json_loads "" m "" I I) as E.
  change ("" +:+ "{" +:+ m +:+ "}" +:+ "") with ("{" +:+ m +:+ "}" +:+ "") in E.
  rewrite <- PyStrFacts.str_app_assoc, PyStrFacts.str_app_nil_r in E.
  rewrite PyStrFacts.str_app_assoc in E. now rewrite E.
Qed.

Lemma parse_response_ignores_prose_witness :
  parse_response SampleDecoder.loads "Sure! {[1, 2]} Bye." =
  parse_response SampleDecoder.loads "{[1, 2]}".
Proof.
  apply (parse_response_ignores_prose SampleDecoder.loads "Sure! " "[1, 2]" " Bye.");
    simpl; repeat split; discriminate.
Defined.

(** ** Audio summary *)

Section Audio.

Variable speak : string -> string -> bool -> outcome (list Byte.byte).
Variable container_repr : json -> string.

Lemma for_each_not_object (items : list json) :
  (exists r, r ∈ items /\ forall d, r <> JObj d) ->
  for_each (finding_sentence container_repr) items = Raises "AttributeError".
Proof.
  intros (r & Hr & Hno). induction items as [|x items IH];
    [now apply elem_of_nil in Hr|].
  cbn [for_each]. destruct x as [| | | | |d]; try reflexivity.
  apply elem_of_cons in Hr as [->|Hr]; [now destruct (Hno d)|].
  rewrite finding_sentence_object. unfold mbind at 1, outcome_bind.
  now rewrite (IH Hr).
Qed.

(** A failure of the speech engine never aborts the request: when the
    plant is healthy, when there are no results, or when the results
    are a list of objects, bytes are returned, and they are empty
    whenever the engine raises. *)
Theorem synthesize_summary_speech_failure (analysis : list (string * json))
    (plant_name : string) :
  truthy_get analysis "is_healthy" = true
  \/ truthy_get analysis "results" = false
  \/ (exists ds, dict_get analysis "results" = Some (JArr (map JObj ds))) ->
  exists summary audio,
    summary_text container_repr analysis plant_name = Returns summary
    /\ synthesize_summary speak container_repr analysis plant_name = Returns audio
    /\ (forall exc, speak summary "en" false = Raises exc -> audio = [])
    /\ (forall bytes, speak summary "en" false = Returns bytes -> audio = bytes).
Proof.
  intros H.
  assert (exists summary,
            summary_text container_repr analysis plant_name = Returns summary)
    as [summary Hs].
  { unfold summary_text.
    destruct (truthy_get analysis "is_healthy"); [eauto|].
    destruct H as [H|[H|[ds H]]]; [discriminate | rewrite H; eauto |].
    destruct (truthy_get analysis "results"); [|eauto].
    rewrite H, for_each_objects. simpl. eauto. }
  exists summary, (try_except (speak summary "en" false) (fun _ => [])).
  split; [exact Hs|]. unfold synthesize_summary. rewrite Hs. simpl.
  split; [reflexivity|]. split; [intros exc ->|intros bytes ->]; reflexivity.
Qed.

(** A result list with an element that is no object is not forgiven:
    the error raised while the sentences are built leaves the function,
    whatever the speech engine would do. *)
Theorem synthesize_summary_malformed (analysis : list (string * json))
    (plant_name : string) (items : list json) :
  truthy_get analysis "is_healthy" = false ->
  dict_get analysis "results" = Some (JArr items) ->
  (exists r, r ∈ items /\ forall d, r <> JObj d) ->
  synthesize_summary speak container_repr analysis plant_name =
  Raises "AttributeError".
Proof.
  intros Hh Hres Hbad. unfold synthesize_summary, summary_text, truthy_get.
  unfold truthy_get in Hh. rewrite Hh, Hres.
  destruct Hbad as (r & Hr & Hno).
  destruct items as [|x items]; [now apply elem_of_nil in Hr|].
  cbn [truthy]. rewrite for_each_not_object by eauto. reflexivity.
Qed.

End Audio.

Lemma synthesize_summary_speech_failure_witness :
  synthesize_summary mute_engine SampleDecoder.container_repr nameless_analysis
    "tomato" = Returns [].
Proof.
  destruct (synthesize_summary_speech_failure mute_engine
              SampleDecoder.container_repr nameless_analysis "tomato")
    as (summary & audio & _ & -> & Hmute & _).
  - right; right. exists [nameless_finding]. reflexivity.
  - f_equal. apply (Hmute "gTTSError"). reflexivity.
Defined.

Lemma synthesize_summary_malformed_witness :
  synthesize_summary toy_engine SampleDecoder.container_repr
    [("results", JArr [JObj nameless_finding; JStr "blight"])] "tomato" =
  Raises "AttributeError".
Proof.
  apply (synthesize_summary_malformed toy_engine SampleDecoder.container_repr
           _ "tomato" [JObj nameless_finding; JStr "blight"]);
    [reflexivity | reflexivity |].
  exists (JStr "blight"). split; [right; left | discriminate].
Defined.

(** ** Trimming *)

Module PyTextFacts.
Import PyStr PyStrFacts PyText.

Lemma lstrip_head (s : string) :
  match lstrip s with
  | EmptyString => True
  | String c _ => is_space c = false
  end.
Proof.
  induction s as [|c s IH]; simpl; [trivial|].
  destruct (is_space c) eqn:E; [exact IH | exact E].
Qed.

Lemma lstrip_fixed (s : string) :
  match s with
  | EmptyString => True
  | String c _ => is_space c = false
  end -> lstrip s = s.
Proof. destruct s as [|c s]; simpl; [trivial|]. now intros ->. Qed.

Lemma lstrip_idem (s : string) : lstrip (lstrip s) = lstrip s.
Proof. apply lstrip_fixed, lstrip_head. Qed.

Lemma rstrip_idem (s : string) : rstrip (rstrip s) = rstrip s.
Proof.
  induction s as [|c s IH]; simpl; [reflexivity|].
  destruct (rstrip s) as [|d r] eqn:E.
  - destruct (is_space c) eqn:Ec; simpl; [reflexivity|]. now rewrite Ec.
  - change (rstrip (String c (String d r)))
      with (match rstrip (String d r) with
            | EmptyString => if is_space c then "" else String c ""
            | String d' r' => String c (String d' r')
            end).
    now rewrite IH.
Qed.

(** Trimming on the right keeps a first character that is no blank. *)
Lemma rstrip_head (s : string) :
  match s with
  | EmptyString => True
  | String c _ => is_space c = false
  end ->
  match rstrip s with
  | EmptyString => True
  | String c _ => is_space c = false
  end.
Proof.
  destruct s as [|c s]; simpl; [trivial|]. intros Hc.
  destruct (rstrip s); [now rewrite Hc | exact Hc].
Qed.

Lemma strip_fixed (s : string) :
  lstrip (strip s) = strip s /\ rstrip (strip s) = strip s.
Proof.
  unfold strip. split; [|apply rstrip_idem].
  apply lstrip_fixed, rstrip_head, lstrip_head.
Qed.

Lemma strip_idem (s : string) : strip (strip s) = strip s.
Proof.
  destruct (strip_fixed s) as [Hl Hr]. unfold strip at 1. now rewrite Hl, Hr.
Qed.

Lemma absent_lstrip (c : ascii) (s : string) : absent c s -> absent c (lstrip s).
Proof.
  induction s as [|d s IH]; simpl; [trivial|]. intros [Hd Hs].
  destruct (is_space d); simpl; auto.
Qed.

Lemma absent_rstrip (c : ascii) (s : string) : absent c s -> absent c (rstrip s).
Proof.
  induction s as [|d s IH]; simpl; [trivial|]. intros [Hd Hs].
  specialize (IH Hs). destruct (rstrip s); [|simpl in *; tauto].
  destruct (is_space d); simpl; auto.
Qed.

Lemma absent_remove_char (c : ascii) (s : string) : absent c (remove_char c s).
Proof.
  induction s as [|d s IH]; simpl; [trivial|].
  destruct (Ascii.eqb_spec d c); simpl; auto.
Qed.

Lemma remove_char_absent (c : ascii) (s : string) :
  absent c s -> remove_char c s = s.
Proof.
  induction s as [|d s IH]; simpl; [trivial|]. intros [Hd Hs].
  destruct (Ascii.eqb_spec d c); [contradiction|]. now rewrite IH.
Qed.

Lemma remove_char_app (c : ascii) (s t : string) :
  remove_char c (s +:+ t) = remove_char c s +:+ remove_char c t.
Proof.
  induction s as [|d s IH]; simpl; [reflexivity|].
  destruct (Ascii.eqb d c); simpl; now rewrite IH.
Qed.

(** A text without blank characters is its own trimming. *)
Lemma strip_no_space (s : string) :
  forallb (fun c => negb (is_space c)) (chars s) = true -> strip s = s.
Proof.
  unfold strip. intros H.
  assert (lstrip s = s) as -> by (destruct s as [|c s]; simpl in *;
    [reflexivity | apply andb_true_iff in H as [Hc _];
                   now apply negb_true_iff in Hc as ->]).
  induction s as [|c s IH]; simpl in *; [reflexivity|].
  apply andb_true_iff in H as [Hc H]. apply negb_true_iff in Hc.
  rewrite (IH H). destruct s; [now rewrite Hc | reflexivity].
Qed.

(** A decimal numeral has digits and at most a minus sign. *)
Lemma string_of_uint_chars (d : Decimal.uint) :
  forallb (fun c => negb (is_space c) && negb (Ascii.eqb c "%"))
          (chars (NilEmpty.string_of_uint d)) = true.
Proof. induction d; simpl; auto. Qed.

Lemma str_of_int_chars (n : Z) :
  forallb (fun c => negb (is_space c) && negb (Ascii.eqb c "%"))
          (chars (str_of_int n)) = true.
Proof.
  unfold str_of_int. destruct (Z.to_int n) as [d|d]; simpl;
    apply string_of_uint_chars.
Qed.

Lemma chars_absent (c : ascii) (s : string) :
  forallb (fun x => negb (Ascii.eqb x c)) (chars s) = true -> absent c s.
Proof.
  induction s as [|d s IH]; simpl; [trivial|]. intros H.
  apply andb_true_iff in H as [Hd H]. split; [|auto].
  apply negb_true_iff in Hd. now apply Ascii.eqb_neq.
Qed.

Lemma forallb_weaken {A : Type} (f g : A -> bool) (l : list A) :
  (forall x, f x = true -> g x = true) ->
  forallb f l = true -> forallb g l = true.
Proof.
  intros Hfg. induction l as [|x l IH]; simpl; [trivial|]. intros H.
  apply andb_true_iff in H as [Hx H]. now rewrite (Hfg x Hx), IH.
Qed.

End PyTextFacts.

(** ** The probability bar *)

Section ProgressBar.
Import PyStr PyStrFacts PyText PyTextFacts.

Variable py_int : string -> outcome Z.
Variable container_repr : json -> string.

(** The width shown is between 0 and 100 whatever the probability
    field holds, and it is 0 when the field is no whole number. *)
Theorem progress_value_bounds (pct : json) :
  0 <= progress_value py_int container_repr pct <= 100
  /\ (forall exc, py_int (percent_text container_repr pct) = Raises exc ->
        progress_value py_int container_repr pct = 0)
  /\ (forall n, py_int (percent_text container_repr pct) = Returns n ->
        progress_value py_int container_repr pct = Z.max 0 (Z.min 100 n)).
Proof.
  unfold progress_value. split; [lia|].
  split; [intros exc ->|intros n ->]; reflexivity.
Qed.

(** The text handed to [int] has no percent sign left and no blank at
    either end. *)
Theorem percent_text_clean (pct : json) :
  absent "%" (percent_text container_repr pct)
  /\ strip (percent_text container_repr pct) = percent_text container_repr pct.
Proof.
  unfold percent_text. split; [|apply strip_idem].
  apply absent_rstrip, absent_lstrip, absent_remove_char.
Qed.

Lemma percent_text_numeral (n : Z) :
  percent_text container_repr (JStr (str_of_int n +:+ "%")) = str_of_int n
  /\ percent_text container_repr (JInt n) = str_of_int n.
Proof.
  pose proof (str_of_int_chars n) as Hc.
  assert (strip (str_of_int n) = str_of_int n) as Hs.
  { apply strip_no_space. revert Hc. apply forallb_weaken.
    intros c H. now apply andb_true_iff in H as [H _]. }
  assert (remove_char "%" (str_of_int n) = str_of_int n) as Hr.
  { apply remove_char_absent, chars_absent. revert Hc. apply forallb_weaken.
    intros c H. now apply andb_true_iff in H as [_ H]. }
  unfold percent_text. simpl py_str. split; [|now rewrite Hr].
  rewrite remove_char_app, Hr. simpl remove_char.
  now rewrite str_app_nil_r.
Qed.

(** A whole number, written as a JSON number or as a decimal numeral
    followed by a percent sign, is shown cut to the range 0 to 100,
    provided [int] reads decimal numerals back. *)
Theorem progress_value_numeral (n : Z) :
  py_int (str_of_int n) = Returns n ->
  progress_value py_int container_repr (JStr (str_of_int n +:+ "%")) =
    Z.max 0 (Z.min 100 n)
  /\ progress_value py_int container_repr (JInt n) = Z.max 0 (Z.min 100 n).
Proof.
  intros Hint. destruct (percent_text_numeral n) as [E1 E2].
  unfold progress_value. now rewrite E1, E2, Hint.
Qed.

End ProgressBar.

Lemma progress_value_numeral_witness :
  progress_value PyText.int_of_text SampleDecoder.container_repr (JStr "150%") = 100
  /\ progress_value PyText.int_of_text SampleDecoder.container_repr (JInt 150) = 100.
Proof.
  apply (progress_value_numeral PyText.int_of_text SampleDecoder.container_repr 150).
  reflexivity.
Defined.

(** ** Severity badge *)

Section Badges.
Import PyStr PyStrFacts PyText.

(** The severity style depends on the lower-cased text only: it is the
    high style exactly for the texts that start with "high" in any
    capitalisation, the low style exactly for those that start with
    "low", and the medium style for every other text, the empty one
    included. *)
Theorem severity_class_cases (sev : string) :
  severity_class (lower sev) = severity_class sev
  /\ (severity_class sev = "badge-high" <-> exists rest, lower sev = "high" +:+ rest)
  /\ (severity_class sev = "badge-low" <-> exists rest, lower sev = "low" +:+ rest)
  /\ (severity_class sev = "badge-med" <->
      ~ (exists rest, lower sev = "high" +:+ rest)
      /\ ~ (exists rest, lower sev = "low" +:+ rest)).
Proof.
  unfold severity_class. rewrite !or_empty_id, lower_idem.
  split; [reflexivity|].
  rewrite <- !prefix_true.
  destruct (String.prefix "high" (lower sev)) eqn:Eh.
  - assert (String.prefix "low" (lower sev) = false) as El.
    { apply prefix_true in Eh as [rest ->]. reflexivity. }
    rewrite El. repeat split; try discriminate; tauto.
  - destruct (String.prefix "low" (lower sev)) eqn:El;
      repeat split; try discriminate; try tauto.
Qed.

(** ** Extension links *)

Lemma app_nonempty (a b : string) : b <> "" -> a +:+ b <> "".
Proof. destruct a; simpl; [auto | discriminate]. Qed.

Lemma osu_query_nonempty (str_strip : string -> string)
    (plant disease : string) :
  osu_query_with str_strip plant disease <> "".
Proof.
  unfold osu_query_with. destruct plant as [|c p]; simpl.
  - destruct disease; simpl; discriminate.
  - destruct disease as [|d q]; simpl; [discriminate|].
    now apply app_nonempty.
Qed.

(** For every pair of names, two links are built, the search terms are
    never empty and both addresses carry them, unencoded, after the
    site restriction.  The terms are the two stripped names joined by a
    plus sign when both are given, the one given name as it is when the
    other is empty, and "plant disease" when both are empty.
    [str_strip] is [str.strip]; on ASCII names the terms are
    [osu_query]. *)
Theorem osu_extension_links_query (str_strip : string -> string)
    (plant disease : string) :
  osu_query_with str_strip plant disease <> ""
  /\ osu_extension_links_with str_strip plant disease =
     [ mkLink "OSU Extension fact sheets (search)"
         ("https://www.google.com/search?q=site:ohioline.osu.edu+" +:+
          osu_query_with str_strip plant disease)
         "Ohio State University Extension fact sheets related to your query.";
       mkLink "OSU CFAES plant problem resources (search)"
         ("https://www.google.com/search?q=site:u.osu.edu+" +:+
          osu_query_with str_strip plant disease +:+ "+plant+problem")
         "Additional OSU resources and diagnostics." ]
  /\ (plant <> "" -> disease <> "" ->
      osu_query_with str_strip plant disease =
      str_strip plant +:+ "+" +:+ str_strip disease)
  /\ (disease = "" -> plant <> "" -> osu_query_with str_strip plant disease = plant)
  /\ (plant = "" -> disease <> "" ->
      osu_query_with str_strip plant disease = disease)
  /\ (plant = "" -> disease = "" ->
      osu_query_with str_strip plant disease = "plant disease")
  /\ osu_query_with strip plant disease = osu_query plant disease
  /\ osu_extension_links_with strip plant disease =
     osu_extension_links plant disease.
Proof.
  split; [apply osu_query_nonempty|]. split; [reflexivity|].
  unfold osu_query_with.
  destruct plant as [|c p]; destruct disease as [|d q]; simpl;
    repeat split; try congruence; try reflexivity.
Qed.

(** When both names are given, blanks around them do not change the
    search terms. *)
Theorem osu_query_trimmed (plant disease : string) :
  strip plant <> "" -> strip disease <> "" ->
  osu_query (strip plant) (strip disease) = osu_query plant disease.
Proof.
  intros Hp Hd. unfold osu_query.
  assert (nonempty (strip plant) = true) as -> by now destruct (strip plant).
  assert (nonempty (strip disease) = true) as -> by now destruct (strip disease).
  assert (nonempty plant = true) as ->
    by (destruct plant; [now destruct Hp | reflexivity]).
  assert (nonempty disease = true) as ->
    by (destruct disease; [now destruct Hd | reflexivity]).
  simpl. now rewrite !PyTextFacts.strip_idem.
Qed.

Lemma osu_query_trimmed_witness :
  osu_query "Tomato" "Early blight" = osu_query "  Tomato " " Early blight  ".
Proof.
  apply (osu_query_trimmed "  Tomato " " Early blight  "); discriminate.
Defined.

End Badges.

(** ** The further properties at sample inputs *)

Section MoreSamples.
Import PyStr PyStrFacts.

Lemma reversed_order_iteration : iteration_order reversed_order ACTIVE_KEYWORDS.
Proof. apply iteration_order_rev, catalog_order_iteration. Qed.

Lemma curated_products_default_witness :
  curated_products CATALOG reversed_order "Remove the infected leaves"
    "Leaf rust" =
  [ mkEntry "chlorothalonil" "Daconil (chlorothalonil) — search"
      "https://www.amazon.com/s?k=Daconil+chlorothalonil+fungicide"
      "Broad-spectrum protectant for many leaf blights and fruit rots.";
    mancozeb_entry ].
Proof.
  rewrite (curated_products_default reversed_order "Remove the infected leaves"
             "Leaf rust" reversed_order_iteration); [reflexivity|].
  intros a Ha Hocc. apply contains_occurs in Hocc.
  unfold ACTIVE_KEYWORDS, keyword_set in Ha. rewrite elem_of_list_to_set in Ha.
  apply list_elem_of_In in Ha. vm_compute in Ha.
  repeat (destruct Ha as [<-|Ha]; [vm_compute in Hocc; discriminate|]).
  destruct Ha.
Defined.

Lemma curated_products_named_included_witness :
  sulfur_entry ∈ curated_products CATALOG reversed_order
                   "Sulfur or mancozeb sprays" "Powdery mildew".
Proof.
  apply curated_products_named_included.
  - exact reversed_order_iteration.
  - apply Nat.leb_le. vm_compute. reflexivity.
  - apply (bool_decide_unpack _). vm_compute. exact I.
  - exists "", " or mancozeb sprays". reflexivity.
Defined.

Lemma curated_products_only_named_witness :
  occurs (active mancozeb_entry) (lower "Sulfur or mancozeb sprays").
Proof.
  apply (curated_products_only_named reversed_order "Sulfur or mancozeb sprays"
           "Powdery mildew" sulfur_entry mancozeb_entry).
  - exact reversed_order_iteration.
  - discriminate.
  - apply (bool_decide_unpack _). vm_compute. exact I.
  - apply (bool_decide_unpack _). vm_compute. exact I.
  - exists "", " or mancozeb sprays". reflexivity.
  - exists "sulfur or ", " sprays". reflexivity.
  - apply (bool_decide_unpack _). vm_compute. exact I.
Defined.

Lemma sample_findings_items :
  exists items,
    recommended_items CATALOG reversed_order sample_findings = Returns items
    /\ map active items = ["mancozeb"; "chlorothalonil"; "sulfur"; "spinosad"; "bt"].
Proof. eexists. split; vm_compute; reflexivity. Defined.

Lemma recommended_items_distinct_titles_witness :
  exists items,
    recommended_items CATALOG reversed_order sample_findings = Returns items
    /\ NoDup (map title items).
Proof.
  destruct sample_findings_items as (items & H & _). exists items.
  split; [exact H|].
  exact (proj1 (recommended_items_distinct_titles CATALOG reversed_order
                  sample_findings items H)).
Defined.

Lemma recommended_items_curated_witness :
  exists items,
    recommended_items CATALOG reversed_order sample_findings = Returns items
    /\ NoDup items /\ (length items <= 11)%nat.
Proof.
  destruct sample_findings_items as (items & H & _). exists items.
  split; [exact H|].
  exact (proj2 (recommended_items_curated reversed_order sample_findings items H)).
Defined.

Lemma recommended_items_returns_witness :
  (exists ps, curated_products_of CATALOG reversed_order
                (JObj [("name", JStr "Aphids"); ("treatment", JNull)]) = Returns ps)
  /\ curated_products_of CATALOG reversed_order
       (JObj [("name", JStr "Leaf rust")]) =
     Returns (curated_products CATALOG reversed_order "" "Leaf rust")
  /\ curated_products_of CATALOG reversed_order
       (JObj [("name", JStr "Aphids"); ("treatment", JInt 7)]) =
     Raises "AttributeError"
  /\ recommended_items CATALOG reversed_order
       [JObj [("name", JStr "Aphids")]; JStr "blight"] = Raises "AttributeError".
Proof.
  pose proof (recommended_items_returns CATALOG reversed_order sample_findings)
    as (Hiff & _ & Hnoobj & Htrue & Htext & _).
  split; [|split; [|split]].
  - apply (proj1 Hiff).
    + destruct sample_findings_items as (items & H & _). eauto.
    + right; right; left.
  - apply Htext; [left; reflexivity | right; split; [reflexivity | left; reflexivity]].
  - apply (Htrue _ "treatment" (JInt 7)); [left | reflexivity | reflexivity |].
    intros s. discriminate.
  - apply (proj2 (proj2 (proj2 (proj2 (proj2 (recommended_items_returns CATALOG
             reversed_order [JObj [("name", JStr "Aphids")]; JStr "blight"])))))).
    exists (JStr "blight"). split; [right; left|].
    apply Hnoobj. intros d. discriminate.
Defined.

Lemma progress_value_bounds_witness :
  progress_value PyText.int_of_text SampleDecoder.container_repr (JStr "n/a") = 0
  /\ progress_value PyText.int_of_text SampleDecoder.container_repr
       (JStr " 87 % ") = 87.
Proof.
  split.
  - apply (proj1 (proj2 (progress_value_bounds PyText.int_of_text
                           SampleDecoder.container_repr (JStr "n/a")))
             "ValueError").
    reflexivity.
  - apply (proj2 (proj2 (progress_value_bounds PyText.int_of_text
                           SampleDecoder.container_repr (JStr " 87 % "))) 87).
    reflexivity.
Defined.

Lemma severity_class_cases_witness :
  severity_class "HIGH (spreading)" = "badge-high"
  /\ severity_class "Moderate" = "badge-med".
Proof.
  split.
  - apply (proj1 (proj2 (severity_class_cases "HIGH (spreading)"))).
    exists " (spreading)". reflexivity.
  - apply (proj2 (proj2 (proj2 (severity_class_cases "Moderate")))).
    split; intros [rest H]; discriminate H.
Defined.

Lemma osu_extension_links_query_witness :
  osu_query_with PyText.strip " Tomato" "Late blight " = "Tomato+Late blight"
  /\ osu_query_with PyText.strip " Tomato" "" = " Tomato"
  /\ osu_query_with PyText.strip "" "" = "plant disease".
Proof.
  split; [|split].
  - apply (proj1 (proj2 (proj2 (osu_extension_links_query PyText.strip " Tomato"
                                  "Late blight ")))); discriminate.
  - apply (proj1 (proj2 (proj2 (proj2 (osu_extension_links_query PyText.strip
                                         " Tomato" ""))))).
    + reflexivity.
    + discriminate.
  - apply (proj1 (proj2 (proj2 (proj2 (proj2 (proj2
             (osu_extension_links_query PyText.strip "" ""))))))); reflexivity.
Defined.

End MoreSamples.
